(** * Loggregator: the relay, the drop-oldest buffer and the v1-to-v2 conversion

    The development follows the repository:
    - [Relay] embeds [doppler/internal/server/v2/repeater.go];
    - [Buffer] models the truncating buffer that [sinks.RunTruncatingBuffer]
      creates and runs;
    - [Conversion] models [conversion.ToV2], exercised by the conversion test
      on a v1 [Error] envelope. *)

From stdpp Require Import base option list sorting strings gmap pretty.

(** * The relay: [Repeater] *)

Module Relay.

Section Repeater.
(** [Loc] stands for the addresses of [loggregator_v2.Envelope] values
    (the type is declared in [plumbing/v2]); [World] is everything the
    reader and writer closures capture and may change. *)
Context {Loc World : Type}.

(** A pointer to a [loggregator_v2.Envelope]: the repeater only passes
    it along, it never dereferences it. *)
Inductive ptr : Type :=
| nil
| at_ (l : Loc).

(** What an observer of the two closures sees: a value coming back from
    the reader, a call of the writer with its argument. *)
Inductive event : Type :=
| EvRead (p : ptr)
| EvWrite (p : ptr).

Record state : Type := State { world : World; log : list event }.

(** A Go call either comes back with a value or never comes back
    (it blocks, as a read on an empty channel does). *)
Inductive outcome (A : Type) : Type :=
| Done (a : A) (s : state)
| Blocked (s : state).
Global Arguments Done {A} a s.
Global Arguments Blocked {A} s.

Definition M (A : Type) : Type := state -> outcome A.

Global Instance M_ret : MRet M := fun A a s => Done a s.
Global Instance M_bind : MBind M := fun A B f m s =>
  match m s with
  | Done a s' => f a s'
  | Blocked s' => Blocked s'
  end.

(** [type Reader func()], returning a pointer to a [loggregator_v2.Envelope] *)
Definition Reader : Type := World -> option (ptr * World).

(** [type Writer func(p)], [p] a pointer to a [loggregator_v2.Envelope] *)
Definition Writer : Type := ptr -> World -> option World.

(** [type Repeater struct { r Reader; w Writer }] *)
Record Repeater : Type := mkRepeater { r : Reader; w : Writer }.

Definition NewRepeater (r : Reader) (w : Writer) : Repeater :=
  {| r := r; w := w |}.

(** [r.r()] *)
Definition call_r (rp : Repeater) : M ptr := fun s =>
  match r rp (world s) with
  | Some (p, σ) => Done p (State σ (log s ++ [EvRead p]))
  | None => Blocked s
  end.

(** [r.w(p)] *)
Definition call_w (rp : Repeater) (p : ptr) : M unit := fun s =>
  match w rp p (world s) with
  | Some σ => Done tt (State σ (log s ++ [EvWrite p]))
  | None => Blocked (State (world s) (log s ++ [EvWrite p]))
  end.

(** How one pass through the body of a [for { ... }] ends: control falls
    through to the next pass, or leaves the loop ([break], [return]). *)
Inductive flow : Type := Next | Leave.

(** Where a [for { ... }] stands after a bounded number of passes. *)
Inductive run : Type :=
| Returned (s : state)
| Waiting (s : state)
| Running (s : state).

Definition final (x : run) : state :=
  match x with Returned s | Waiting s | Running s => s end.

Fixpoint for_ (passes : nat) (body : M flow) (s : state) : run :=
  match passes with
  | 0 => Running s
  | S n =>
      match body s with
      | Blocked s' => Waiting s'
      | Done Leave s' => Returned s'
      | Done Next s' => for_ n body s'
      end
  end.

(** The body of the loop in [Start]: [r.w(r.r())]. *)
Definition pass (rp : Repeater) : M flow :=
  p ← call_r rp; call_w rp p;; mret Next.

(** [func (r *Repeater) Start() { for { r.w(r.r()) } }] *)
Definition Start (passes : nat) (rp : Repeater) (s : state) : run :=
  for_ passes (pass rp) s.

(** Projections of a log. *)
Definition reads (t : list event) : list ptr :=
  omap (fun e => match e with EvRead p => Some p | EvWrite _ => None end) t.
Definition writes (t : list event) : list ptr :=
  omap (fun e => match e with EvWrite p => Some p | EvRead _ => None end) t.

(** The log of [k] whole passes that moved the pointers [ps]. *)
Definition relayed (ps : list ptr) : list event :=
  ps ≫= (fun p => [EvRead p; EvWrite p]).

End Repeater.

Global Arguments ptr : clear implicits.
Global Arguments event : clear implicits.
Global Arguments state : clear implicits.
Global Arguments Repeater : clear implicits.
Global Arguments Reader : clear implicits.
Global Arguments Writer : clear implicits.

(** ** A reader fed from its own state and a recording writer *)

Section Recording.
Context {Loc R : Type}.

(** The pointers a reader with private state [R] hands out in its first
    [n] calls, up to the first call that does not come back. *)
Fixpoint produced (rd : R -> option (ptr Loc * R)) (n : nat) (ρ : R) : list (ptr Loc) :=
  match n with
  | 0 => []
  | S n' =>
      match rd ρ with
      | Some (p, ρ') => p :: produced rd n' ρ'
      | None => []
      end
  end.

(** The world of the scenario: the reader's state and the writer's record. *)
Definition reader_of (rd : R -> option (ptr Loc * R)) : Reader Loc (R * list (ptr Loc)) :=
  fun σ => match rd σ.1 with
           | Some (p, ρ') => Some (p, (ρ', σ.2))
           | None => None
           end.

Definition recorder : Writer Loc (R * list (ptr Loc)) :=
  fun p σ => Some (σ.1, σ.2 ++ [p]).

Definition recorded (x : run (Loc:=Loc) (World:=R * list (ptr Loc))) : list (ptr Loc) :=
  (world (final x)).2.
End Recording.

(** A reader over a finite supply: it hands out the pointers of the list
    one by one and then blocks, as a read on a channel nobody sends on. *)
Definition supply {Loc : Type} (l : list (ptr Loc)) : option (ptr Loc * list (ptr Loc)) :=
  match l with
  | p :: l' => Some (p, l')
  | [] => None
  end.

(** A reader that has nothing to hand out and says so with [nil] on every
    call, and a writer that takes anything. *)
Definition exhausted : Reader Empty_set unit := fun _ => Some (nil, tt).
Definition discard : Writer Empty_set unit := fun _ _ => Some tt.

End Relay.

(** * The drop-oldest buffer behind [sinks.RunTruncatingBuffer] *)

Module Buffer.

Section TruncatingBuffer.
Context {Envelope : Type}.

(** Modelled from the spec: package [doppler/truncatingbuffer], which
    [sinks] imports, is not among the sources. The state is the one the
    spec gives to the buffered queue: a bounded capacity counted in
    envelopes, the envelopes held, oldest first, and a drop counter
    scoped to the buffer. *)
Record TruncatingBuffer : Type := mkBuffer {
  capacity : nat;
  held : list Envelope;
  dropped : nat
}.

(** Modelled from the spec: [truncatingbuffer.NewTruncatingBuffer] is
    missing; a buffer is created empty, with its counter at zero. *)
Definition NewTruncatingBuffer (bufferSize : nat) : TruncatingBuffer :=
  {| capacity := bufferSize; held := []; dropped := 0 |}.

(** Modelled from the spec: [Push] of the missing package. It never
    blocks (the function is total); if the buffer is at capacity the
    single oldest envelope is discarded before the new one is appended,
    and the counter goes up by one per discarded envelope. An empty buffer
    at capacity (the capacity is zero) has no envelope to discard. *)
Definition Push (e : Envelope) (b : TruncatingBuffer) : TruncatingBuffer :=
  if decide (capacity b ≤ length (held b)) then
    match held b with
    | _ :: rest =>
        {| capacity := capacity b; held := rest ++ [e]; dropped := S (dropped b) |}
    | [] =>
        {| capacity := capacity b; held := [e]; dropped := dropped b |}
    end
  else
    {| capacity := capacity b; held := held b ++ [e]; dropped := dropped b |}.

(** Modelled from the spec: [Pop] of the missing package removes and
    returns the oldest envelope, or signals emptiness. *)
Definition Pop (b : TruncatingBuffer) : option Envelope * TruncatingBuffer :=
  match held b with
  | e :: rest =>
      (Some e, {| capacity := capacity b; held := rest; dropped := dropped b |})
  | [] => (None, b)
  end.

(** Modelled from the spec: the missing [Run] loop of the buffer pushes
    every envelope that arrives on its input, in order of arrival. *)
Definition Run (input : list Envelope) (b : TruncatingBuffer) : TruncatingBuffer :=
  foldl (fun b e => Push e b) b input.

(** [sinks.RunTruncatingBuffer]: create the buffer on the input channel
    and run it. The channel is given by the envelopes sent on it; the
    logger and the origin are left out. *)
Definition RunTruncatingBuffer (inputChan : list Envelope) (bufferSize : nat)
  : TruncatingBuffer :=
  let b := NewTruncatingBuffer bufferSize in
  Run inputChan b.

(** Interleaved use of the buffer by its producer and its one consumer. *)
Inductive op : Type :=
| DoPush (e : Envelope)
| DoPop.

Record session : Type := mkSession {
  buf : TruncatingBuffer;
  popped : list Envelope
}.

Definition step (s : session) (o : op) : session :=
  match o with
  | DoPush e => {| buf := Push e (buf s); popped := popped s |}
  | DoPop =>
      match Pop (buf s) with
      | (Some e, b') => {| buf := b'; popped := popped s ++ [e] |}
      | (None, b') => {| buf := b'; popped := popped s |}
      end
  end.



(** What a buffer of capacity [C] holds once it has taken [es]: the
    envelopes split into those gone and those held, the counter is the
    number of those gone, and the buffer is as full as it can be. *)
Definition fed (C : nat) (es : list Envelope) (b : TruncatingBuffer) : Prop :=
  capacity b = C
  ∧ ∃ gone, es = gone ++ held b
            ∧ dropped b = length gone
            ∧ length (held b) = length es `min` C.


End TruncatingBuffer.

Global Arguments TruncatingBuffer : clear implicits.
Global Arguments op : clear implicits.
Global Arguments session : clear implicits.





End Buffer.

(** * The v1-to-v2 conversion: [conversion.ToV2] *)

(** The legacy schema, as the conversion test builds it
    ([events.Envelope], [events.Error]) and as the spec describes the rest. *)
Module events.

Section Types.
(** [float64] is the type of a metric value, which the conversion only
    copies; [ContainerMetric] is the payload of a container metric, whose
    fields the spec does not list. *)
Context {float64 ContainerMetric : Type}.

(** Modelled from the spec: the declared variant tags of the legacy
    envelope, of which the test names [Envelope_Error];
    [Envelope_Unknown] stands for any tag outside the named ones. *)
Inductive Envelope_EventType : Type :=
| Envelope_Log
| Envelope_Error
| Envelope_ContainerMetric
| Envelope_ValueMetric
| Envelope_CounterEvent
| Envelope_HttpStart
| Envelope_Unknown (tag : Z).

(** Modelled from the spec: a legacy log line goes to standard-out or to
    standard-error. *)
Inductive LogMessage_MessageType : Type :=
| LogMessage_OUT
| LogMessage_ERR.

(** Modelled from the spec: the legacy log payload, its content and its
    direction. *)
Record LogMessage : Type := mkLogMessage {
  Log_Message : string;
  Log_MessageType : LogMessage_MessageType
}.

(** [events.Error{Source, Code, Message}]; [Code] is an [int32]. *)
Record Error : Type := mkError {
  Source : string;
  Code : Z;
  Message : string
}.

(** Modelled from the spec: the legacy gauge payload, a named value with
    its unit. *)
Record ValueMetric : Type := mkValueMetric {
  Metric_Name : string;
  Value : float64;
  Unit : string
}.

(** Modelled from the spec: the legacy counter payload, a named delta
    with the running total, both [uint64]. *)
Record CounterEvent : Type := mkCounterEvent {
  Counter_Name : string;
  Delta : N;
  Total : N
}.

(** Modelled from the spec: the legacy envelope is a tagged union; this
    is its one nested payload, selected by the variant tag. *)
Inductive Payload : Type :=
| OfLog (m : LogMessage)
| OfError (e : Error)
| OfContainerMetric (c : ContainerMetric)
| OfValueMetric (v : ValueMetric)
| OfCounterEvent (c : CounterEvent)
| OfHttpStart
| OfUnknown (tag : Z).

(** [events.Envelope]: the timestamp, the flat optional string fields and
    the payload. *)
Record Envelope : Type := mkEnvelope {
  Timestamp : Z;
  Origin : option string;
  Deployment : option string;
  Job : option string;
  Index : option string;
  Ip : option string;
  payload : Payload
}.

Definition GetEventType (e : Envelope) : Envelope_EventType :=
  match payload e with
  | OfLog _ => Envelope_Log
  | OfError _ => Envelope_Error
  | OfContainerMetric _ => Envelope_ContainerMetric
  | OfValueMetric _ => Envelope_ValueMetric
  | OfCounterEvent _ => Envelope_CounterEvent
  | OfHttpStart => Envelope_HttpStart
  | OfUnknown tag => Envelope_Unknown tag
  end.
End Types.

Global Arguments ValueMetric : clear implicits.
Global Arguments Payload : clear implicits.
Global Arguments Envelope : clear implicits.

End events.

(** The current schema, as the conversion test spells it
    ([DeprecatedTags], [Value_Text], [Envelope_Log], [Log_OUT]). *)
Module loggregator_v2.

Section Types.
(** [Other] is the content of the payload variants the spec names
    without fields (timer, event, error). *)
Context {float64 Other : Type}.

(** [loggregator_v2.Value]: the test builds text values only. *)
Inductive Value : Type :=
| Value_Text (s : string).

(** The output stream of a log line. *)
Inductive Log_Type : Type :=
| Log_OUT
| Log_ERR.

(** [loggregator_v2.Log{Payload, Type}]; the payload is a byte string. *)
Record Log : Type := mkLog {
  Payload : string;
  Type_ : Log_Type
}.

(** Modelled from the spec: the current counter payload keeps the name,
    the delta and the total. *)
Record Counter : Type := mkCounter {
  Counter_Name : string;
  Delta : N;
  Total : N
}.

(** Modelled from the spec: the current gauge payload keeps the name,
    the unit string and the value. *)
Record Gauge : Type := mkGauge {
  Gauge_Name : string;
  Unit : string;
  Value_ : float64
}.

(** Modelled from the spec: exactly one payload variant out of log,
    counter, gauge, timer, event and error; the test builds
    [Envelope_Log]. *)
Inductive Message : Type :=
| Envelope_Log (l : Log)
| Envelope_Counter (c : Counter)
| Envelope_Gauge (g : Gauge)
| Envelope_Timer (t : Other)
| Envelope_Event (t : Other)
| Envelope_Error (t : Other).

(** [loggregator_v2.Envelope], with the fields the conversion fills.
    [Message] is an interface value in Go: [None] is the unset payload of
    a zero-value envelope. *)
Record Envelope : Type := mkEnvelope {
  Timestamp : Z;
  DeprecatedTags : gmap string Value;
  Message_ : option Message
}.

(** [loggregator_v2.Envelope{}] *)
Definition zero : Envelope :=
  {| Timestamp := 0; DeprecatedTags := ∅; Message_ := None |}.
End Types.

Global Arguments Gauge : clear implicits.
Global Arguments Message : clear implicits.
Global Arguments Envelope : clear implicits.

End loggregator_v2.

Module Conversion.
Import loggregator_v2.

Section Normalizer.
Context {float64 ContainerMetric Other : Type}.

(** The two points the spec leaves open: how a container metric is
    mapped to a current payload, and under which key the old name of a
    counter or gauge is kept. *)
Context (fromContainerMetric : ContainerMetric -> Message float64 Other).
Context (oldNameKey : string).

Local Abbreviation Envelope_v1 := (events.Envelope float64 ContainerMetric).
Local Abbreviation Envelope_v2 := (loggregator_v2.Envelope float64 Other).

(** Modelled from the spec: how the missing [conversion.ToV2] ends;
    an unrecognized variant tag is a mapping error handed to the caller. *)
Inductive Outcome (A : Type) : Type :=
| Converted (a : A)
| MappingError (t : events.Envelope_EventType).
Global Arguments Converted {A} a.
Global Arguments MappingError {A} t.

(** Modelled from the spec: the legacy variant name that the missing
    [conversion.ToV2] records under [__v1_type]. *)
Definition typeName (t : events.Envelope_EventType) : string :=
  match t with
  | events.Envelope_Log => "Log"
  | events.Envelope_Error => "Error"
  | events.Envelope_ContainerMetric => "ContainerMetric"
  | events.Envelope_ValueMetric => "ValueMetric"
  | events.Envelope_CounterEvent => "CounterEvent"
  | events.Envelope_HttpStart => "HttpStart"
  | events.Envelope_Unknown tag => pretty tag
  end.

(** Modelled from the spec: tags of the missing [conversion.ToV2] are
    text values under string keys. *)
Definition setTag (k v : string) (tags : gmap string Value) : gmap string Value :=
  <[k := Value_Text v]> tags.

(** Modelled from the spec: an optional legacy field of the missing
    [conversion.ToV2] gives a tag when it is set. *)
Definition setOptTag (k : string) (o : option string) (tags : gmap string Value)
  : gmap string Value :=
  match o with
  | Some v => setTag k v tags
  | None => tags
  end.

(** Modelled from the spec: the missing [conversion.ToV2] puts origin,
    deployment, job, index and ip under the reserved keys of these names,
    and the variant name under [__v1_type]. *)
Definition initTags (e : Envelope_v1) : gmap string Value :=
  setOptTag "ip" (events.Ip e)
    (setOptTag "index" (events.Index e)
      (setOptTag "job" (events.Job e)
        (setOptTag "deployment" (events.Deployment e)
          (setOptTag "origin" (events.Origin e)
            (setTag "__v1_type" (typeName (events.GetEventType e)) ∅))))).

(** Modelled from the spec: the direction of a log line in the missing
    [conversion.ToV2] is kept. *)
Definition convertMessageType (t : events.LogMessage_MessageType) : Log_Type :=
  match t with
  | events.LogMessage_OUT => Log_OUT
  | events.LogMessage_ERR => Log_ERR
  end.

(** Modelled from the spec: the mapping that the missing
    [conversion.ToV2] computes, the spec's [Normalize]. The timestamp is
    carried over, the metadata go to the tag map, and the payload is mapped
    by variant: an error becomes a log payload on standard-out with the
    message as content and source and code (in decimal) added as tags; a
    log becomes a log payload with its direction; a counter and a gauge
    keep their numbers and unit, and their old name in a tag when
    [preserveOldMetricNames] is set. Any other variant is a mapping
    error. *)
Definition Normalize (e : Envelope_v1) (preserveOldMetricNames : bool)
  : Outcome Envelope_v2 :=
  let tags := initTags e in
  let keep (name : string) :=
    if preserveOldMetricNames then setTag oldNameKey name tags else tags in
  match events.payload e with
  | events.OfError err =>
      Converted {|
        Timestamp := events.Timestamp e;
        DeprecatedTags :=
          setTag "code" (pretty (events.Code err))
            (setTag "source" (events.Source err) tags);
        Message_ := Some (Envelope_Log
          {| Payload := events.Message err; Type_ := Log_OUT |}) |}
  | events.OfLog m =>
      Converted {|
        Timestamp := events.Timestamp e;
        DeprecatedTags := tags;
        Message_ := Some (Envelope_Log
          {| Payload := events.Log_Message m;
             Type_ := convertMessageType (events.Log_MessageType m) |}) |}
  | events.OfCounterEvent c =>
      Converted {|
        Timestamp := events.Timestamp e;
        DeprecatedTags := keep (events.Counter_Name c);
        Message_ := Some (Envelope_Counter
          {| Counter_Name := events.Counter_Name c;
             Delta := events.Delta c;
             Total := events.Total c |}) |}
  | events.OfValueMetric v =>
      Converted {|
        Timestamp := events.Timestamp e;
        DeprecatedTags := keep (events.Metric_Name v);
        Message_ := Some (Envelope_Gauge
          {| Gauge_Name := events.Metric_Name v;
             Unit := events.Unit v;
             Value_ := events.Value v |}) |}
  | events.OfContainerMetric c =>
      Converted {|
        Timestamp := events.Timestamp e;
        DeprecatedTags := tags;
        Message_ := Some (fromContainerMetric c) |}
  | events.OfHttpStart | events.OfUnknown _ =>
      MappingError (events.GetEventType e)
  end.

(** The memory around a call: the legacy envelopes the caller holds and
    the current envelopes allocated so far, by address, and what has been
    written to the outside. *)
Record World : Type := mkWorld {
  legacy : gmap positive Envelope_v1;
  current : gmap positive Envelope_v2;
  written : list string
}.

(** Modelled from the spec: [conversion.ToV2] is missing (the sources
    hold its test only, which passes a pointer and receives one). The call
    reads the legacy envelope at [p], and on success returns the address of
    a newly allocated current envelope; it writes nowhere else and does no
    I/O. On a mapping error nothing is allocated. A pointer to nothing
    gives no outcome. *)
Definition ToV2 (p : positive) (preserveOldMetricNames : bool) (σ : World)
  : option (Outcome positive) * World :=
  match legacy σ !! p with
  | None => (None, σ)
  | Some e =>
      match Normalize e preserveOldMetricNames with
      | Converted v2e =>
          let l := fresh (dom (current σ)) in
          (Some (Converted l),
           {| legacy := legacy σ;
              current := <[l := v2e]> (current σ);
              written := written σ |})
      | MappingError t => (Some (MappingError t), σ)
      end
  end.

End Normalizer.

Global Arguments World : clear implicits.

(** A concrete schema and a caller's world for the instances: the error
    envelope of the conversion test and a world that holds one envelope at
    address 1. *)
Definition timer : unit → Message unit unit := fun _ => Envelope_Timer tt.

Definition errorEnvelope : events.Envelope unit unit :=
  {| events.Timestamp := 0;
     events.Origin := Some "fake-origin";
     events.Deployment := Some "some-deployment";
     events.Job := Some "some-job";
     events.Index := Some "some-index";
     events.Ip := Some "some-ip";
     events.payload := events.OfError
       {| events.Source := "test-source";
          events.Code := 12345;
          events.Message := "test-message" |} |}.

Definition holding (e : events.Envelope unit unit) : World unit unit unit :=
  {| legacy := {[ 1%positive := e ]}; current := ∅; written := [] |}.

End Conversion.

(** * The traffic controller: [app.TrafficController] *)

Module App.

(** [time.Duration], in nanoseconds. *)
Definition Duration : Type := Z.
Definition Second : Duration := 1000000000%Z.

Section TrafficController.
(** Types of the libraries the file imports, of which it only passes
    values along: a UDP emitter, whatever [dropsonde.DefaultEmitter] held
    before, an [http.RoundTripper], an [*http.Client], the metric client,
    transport credentials and an [*os.File]. *)
Context {UdpEmitter PriorEmitter Transport HttpClient MetricClient Creds File : Type}.

(** The values [dropsonde.DefaultEmitter] takes in this file. *)
Inductive EventEmitter : Type :=
| Prior (e : PriorEmitter)
| NewEventEmitter (udpEmitter : UdpEmitter) (origin : string)
| NullEventEmitter.

(** The values [http.DefaultTransport] takes in this file. *)
Inductive RoundTripper : Type :=
| Plain (t : Transport)
| InstrumentedRoundTripper (inner : RoundTripper).

(** Values built by constructors of other packages are kept as the call
    that built them. *)
Record MetricSender : Type := NewMetricSender { sender_emitter : EventEmitter }.
Record MetricBatcher : Type := metricbatcher_New {
  batcher_sender : MetricSender;
  batcher_interval : Duration
}.
Record LogSender : Type := NewLogSender { logs_emitter : EventEmitter }.
Record EnvelopeSender : Type := NewEnvelopeSender { envelopes_emitter : EventEmitter }.
Record RuntimeStats : Type := NewRuntimeStats {
  stats_emitter : EventEmitter;
  stats_interval : Duration
}.

Record LogAccessAuthorizer : Type := NewLogAccessAuthorizer {
  la_client : HttpClient;
  la_disableAccessControl : bool;
  la_apiHost : string
}.
Record UaaClientT : Type := NewUaaClient {
  uaa_client : HttpClient;
  uaa_host : string;
  uaa_id : string;
  uaa_secret : string
}.
Record AdminAccessAuthorizer : Type := NewAdminAccessAuthorizer {
  aa_disableAccessControl : bool;
  aa_uaaClient : UaaClientT
}.

Inductive Registry : Type := NewRegistry.

Record GaugeOpts : Type := mkGaugeOpts {
  Namespace : string;
  Subsystem : string;
  Name : string;
  Help : string
}.
Record HealthRegistry : Type := healthendpoint_New {
  health_registry : Registry;
  health_gauges : gmap string GaugeOpts
}.

Record StaticFinder : Type := NewStaticFinder { finder_addrs : list string }.

Record ClientParameters : Type := mkClientParameters {
  Time : Duration;
  Timeout : Duration;
  PermitWithoutStream : bool
}.
Inductive DialOption : Type :=
| WithTransportCredentials (creds : Creds)
| WithKeepaliveParams (kp : ClientParameters).
Record Pool : Type := NewPool { pool_size : nat; pool_opts : list DialOption }.
Record GRPCConnector : Type := NewGRPCConnector {
  connector_bufferSize : nat;
  connector_pool : Pool;
  connector_finder : StaticFinder;
  connector_batcher : MetricBatcher;
  connector_metricClient : MetricClient
}.

Record AccessLogger : Type := NewAccessLogger { logger_file : File }.

(** An [http.Handler]: the doppler proxy, or a handler behind the access
    middleware that [auth.Access] returns. *)
Inductive Handler : Type :=
| NewDopplerProxy (logAuthorizer : LogAccessAuthorizer)
    (adminAuthorizer : AdminAccessAuthorizer) (connector : GRPCConnector)
    (cookieDomain : string) (timeout1 timeout2 : Duration)
    (metricClient : MetricClient) (health : HealthRegistry)
| Access (logger : AccessLogger) (ip : string) (port : N) (inner : Handler).

Record Profiler : Type := profiler_New { profiler_port : N }.

Inductive OpenFlag : Type := O_APPEND | O_WRONLY.
Inductive FileMode : Type := ModeAppend.

(** What a [go] statement of the file starts. *)
Inductive Goroutine : Type :=
| RuntimeStatsRun (r : RuntimeStats)
| ListenAndServe (addr : string) (h : Handler)
| ProfilerStart (p : Profiler).

(** What the code does to the outside, in order: lines handed to [log],
    calls into other packages and goroutines started. *)
Inductive Event : Type :=
| Log (line : string)
| CallNewUdpEmitter (destination : string)
| MetricsInitialize (s : MetricSender) (b : MetricBatcher)
| LogsInitialize (l : LogSender)
| EnvelopesInitialize (e : EnvelopeSender)
| Go (g : Goroutine)
| StartServer (addr : string) (r : Registry)
| CallNewClientCredentials (cert key ca name : string)
| FinderStart (f : StaticFinder)
| CallOpenFile (name : string) (flags : list OpenFlag) (perm : FileMode)
| SignalNotify
| Sync (f : File)
| Close (f : File).

(** The package-level variables the file assigns, and the trace. *)
Record World : Type := mkWorld {
  DefaultEmitter : EventEmitter;
  DefaultTransport : RoundTripper;
  trace : list Event
}.

Definition emit (e : Event) (σ : World) : World :=
  {| DefaultEmitter := DefaultEmitter σ;
     DefaultTransport := DefaultTransport σ;
     trace := trace σ ++ [e] |}.

(** The three calls whose result the file branches on. Their answer may
    depend on everything done so far; an error is given by its message. *)
Context (NewUdpEmitter : World → string → UdpEmitter + string).
Context (NewClientCredentials : World → string → string → string → string → Creds + string).
Context (OpenFile : World → string → File + string).

(** The fields of [Config] that the file reads; the struct is declared
    elsewhere in the package. *)
Record AgentConfig : Type := mkAgent { UDPAddress : string }.
Record GRPCConfig : Type := mkGRPC {
  CertFile : string;
  KeyFile : string;
  CAFile : string
}.
Record Config : Type := mkConfig {
  Agent : AgentConfig;
  ApiHost : string;
  UaaHost : string;
  UaaClient : string;
  UaaClientSecret : string;
  HealthAddr : string;
  GRPC : GRPCConfig;
  RouterAddrs : list string;
  SystemDomain : string;
  SecurityEventLog : string;
  IP : string;
  OutgoingDropsondePort : N;
  PProfPort : N
}.

Record TrafficController : Type := mkTrafficController {
  conf : Config;
  disableAccessControl : bool;
  metricClient : MetricClient;
  uaaHTTPClient : HttpClient;
  ccHTTPClient : HttpClient
}.

Definition NewTrafficController (c : Config) (disableAccessControl : bool)
    (metricClient : MetricClient) (uaaHTTPClient ccHTTPClient : HttpClient)
  : TrafficController :=
  {| conf := c;
     disableAccessControl := disableAccessControl;
     metricClient := metricClient;
     uaaHTTPClient := uaaHTTPClient;
     ccHTTPClient := ccHTTPClient |}.

(** A Go [error]: [None] is [nil], otherwise the message. *)
Definition error : Type := option string.

(** [func (t *TrafficController) setupDefaultEmitter(origin, destination string) error] *)
Definition setupDefaultEmitter (t : TrafficController) (origin destination : string)
    (σ : World) : error * World :=
  if decide (origin = "") then
    (Some "Cannot initialize metrics with an empty origin", σ)
  else if decide (destination = "") then
    (Some "Cannot initialize metrics with an empty destination", σ)
  else
    let σ1 := emit (CallNewUdpEmitter destination) σ in
    match NewUdpEmitter σ destination with
    | inr msg => (Some ("Failed to initialize dropsonde: " +:+ msg), σ1)
    | inl udpEmitter =>
        (None,
         {| DefaultEmitter := NewEventEmitter udpEmitter origin;
            DefaultTransport := DefaultTransport σ1;
            trace := trace σ1 |})
    end.

(** [func (t *TrafficController) initializeMetrics(origin, destination string)],
    which returns the batcher and an [error]. *)
Definition initializeMetrics (t : TrafficController) (origin destination : string)
    (σ : World) : MetricBatcher * error * World :=
  let '(err, σ) := setupDefaultEmitter t origin destination σ in
  let σ :=
    match err with
    | Some _ =>
        {| DefaultEmitter := NullEventEmitter;
           DefaultTransport := DefaultTransport σ;
           trace := trace σ |}
    | None => σ
    end in
  let sender := NewMetricSender (DefaultEmitter σ) in
  let batcher := metricbatcher_New sender Second in
  let σ := emit (MetricsInitialize sender batcher) σ in
  let σ := emit (LogsInitialize (NewLogSender (DefaultEmitter σ))) σ in
  let σ := emit (EnvelopesInitialize (NewEnvelopeSender (DefaultEmitter σ))) σ in
  let σ := emit (Go (RuntimeStatsRun (NewRuntimeStats (DefaultEmitter σ) (10 * Second)%Z))) σ in
  let σ :=
    {| DefaultEmitter := DefaultEmitter σ;
       DefaultTransport := InstrumentedRoundTripper (DefaultTransport σ);
       trace := trace σ |} in
  (batcher, err, σ).

(** The gauges [Start] registers with the health endpoint. *)
Definition healthGauges : gmap string GaugeOpts :=
  <["firehoseStreamCount" :=
      {| Namespace := "loggregator"; Subsystem := "trafficcontroller";
         Name := "firehoseStreamCount";
         Help := "Number of open firehose streams" |}]>
  (<["appStreamCount" :=
      {| Namespace := "loggregator"; Subsystem := "trafficcontroller";
         Name := "appStreamCount";
         Help := "Number of open app streams" |}]>
  (<["slowConsumerCount" :=
      {| Namespace := "loggregator"; Subsystem := "trafficcontroller";
         Name := "slowConsumerCount";
         Help := "Number of stream consumers disconnected to avoid backpressure on the Loggregator system" |}]>
   ∅)).

(** ** [Start] *)

(** A [net.Listener], and its address as [log.Printf] prints it. *)
Context {Listener : Type} (Addr : Listener → string).

(** What the goroutine of the func literal in [Start] does to the outside,
    in its own order: calls of [net.Listen] and [http.Serve], and the
    lines it hands to [log]. *)
Inductive ServeEvent : Type :=
| CallListen (network address : string)
| ServeLog (line : string)
| CallServe (lis : Listener) (h : Handler).

(** Where the goroutine that runs [Start] stands: the process has exited
    ([log.Fatalf]), the goroutine has panicked ([log.Panicf]), or it is
    about to start the profiler, to call [signal.Notify], to receive from
    [killChan], to log that it shuts down, to sync and to close the access
    log (the deferred function), or it has returned. [accessLog] is the
    file opened for the security event log, if any. *)
Inductive MainPc : Type :=
| MainExited
| MainPanicked
| AtProfiler (accessLog : option File)
| AtNotify (accessLog : option File)
| AtWait (accessLog : option File)
| AtShutdown (accessLog : option File)
| AtSync (file : File)
| AtClose (file : File)
| MainReturned (accessLog : option File).

(** Where the goroutine of the func literal stands: not started, about to
    call [net.Listen], to log the bound address, to call [http.Serve],
    inside [http.Serve], or after one of its two calls of [log.Fatal],
    which end the process. *)
Inductive ServePc : Type :=
| NotStarted
| AtListen (addr : string) (h : Handler)
| AtBound (addr : string) (lis : Listener) (h : Handler)
| AtServe (addr : string) (lis : Listener) (h : Handler)
| InServe (addr : string) (lis : Listener) (h : Handler)
| ListenFailed (addr : string) (h : Handler) (msg : string)
| ServeReturned (addr : string) (lis : Listener) (h : Handler) (msg : string).

(** The two goroutines, the world with the trace of the one that runs
    [Start], and the trace of the other. *)
Record Process : Type := mkProcess {
  main : MainPc;
  serve : ServePc;
  world : World;
  serving : list ServeEvent
}.

(** The process goes on until [log.Fatalf] or [log.Fatal] is called, or
    the goroutine that runs [Start] panics. *)
Definition alive (cfg : Process) : bool :=
  match main cfg, serve cfg with
  | (MainExited | MainPanicked), _ => false
  | _, (ListenFailed _ _ _ | ServeReturned _ _ _ _) => false
  | _, _ => true
  end.

(** [Start] from its first line to the [go] statement that starts the
    func literal. *)
Definition launch (t : TrafficController) (σ : World) : Process :=
  let c := conf t in
  let σ := emit (Log "Startup: Setting up the loggregator traffic controller") σ in
  let '(batcher, err, σ) :=
    initializeMetrics t "LoggregatorTrafficController" (UDPAddress (Agent c)) σ in
  let σ :=
    match err with
    | Some msg => emit (Log ("Error initializing dropsonde: " +:+ msg)) σ
    | None => σ
    end in
  let logAuthorizer :=
    NewLogAccessAuthorizer (ccHTTPClient t) (disableAccessControl t) (ApiHost c) in
  let uaaClient :=
    NewUaaClient (uaaHTTPClient t) (UaaHost c) (UaaClient c) (UaaClientSecret c) in
  let adminAuthorizer := NewAdminAccessAuthorizer (disableAccessControl t) uaaClient in
  let promRegistry := NewRegistry in
  let σ := emit (StartServer (HealthAddr c) promRegistry) σ in
  let healthRegistry := healthendpoint_New promRegistry healthGauges in
  let σ0 := σ in
  let σ :=
    emit (CallNewClientCredentials (CertFile (GRPC c)) (KeyFile (GRPC c))
            (CAFile (GRPC c)) "doppler") σ in
  match NewClientCredentials σ0 (CertFile (GRPC c)) (KeyFile (GRPC c))
          (CAFile (GRPC c)) "doppler" with
  | inr msg =>
      {| main := MainExited; serve := NotStarted;
         world := emit (Log ("Could not use GRPC creds for server: " +:+ msg)) σ;
         serving := [] |}
  | inl creds =>
      let f := NewStaticFinder (RouterAddrs c) in
      let σ := emit (FinderStart f) σ in
      let kp :=
        {| Time := (15 * Second)%Z; Timeout := (20 * Second)%Z;
           PermitWithoutStream := true |} in
      let pool := NewPool 20 [WithTransportCredentials creds; WithKeepaliveParams kp] in
      let grpcConnector := NewGRPCConnector 1000 pool f batcher (metricClient t) in
      let dopplerHandler :=
        NewDopplerProxy logAuthorizer adminAuthorizer grpcConnector
          ("doppler." +:+ SystemDomain c) (5 * Second)%Z (5 * Second)%Z
          (metricClient t) healthRegistry in
      let opened : (option File * World) + World :=
        if decide (SecurityEventLog c ≠ "") then
          let σ1 := emit (CallOpenFile (SecurityEventLog c) [O_APPEND; O_WRONLY] ModeAppend) σ in
          match OpenFile σ (SecurityEventLog c) with
          | inr msg => inr (emit (Log ("Unable to open access log: " +:+ msg)) σ1)
          | inl accessLog => inl (Some accessLog, σ1)
          end
        else inl (None, σ) in
      match opened with
      | inr σ =>
          {| main := MainPanicked; serve := NotStarted; world := σ; serving := [] |}
      | inl (accessLog, σ) =>
          let accessMiddleware : option (Handler → Handler) :=
            (fun file => Access (NewAccessLogger file) (IP c) (OutgoingDropsondePort c))
              <$> accessLog in
          let dopplerHandler :=
            match accessMiddleware with
            | Some middleware => middleware dopplerHandler
            | None => dopplerHandler
            end in
          let addr := ":" +:+ pretty (OutgoingDropsondePort c) in
          {| main := AtProfiler accessLog;
             serve := AtListen addr dopplerHandler;
             world := emit (Go (ListenAndServe addr dopplerHandler)) σ;
             serving := [] |}
      end
  end.

(** What the goroutine that runs [Start] does next, after the [go]
    statement: it starts the profiler, calls [signal.Notify], receives
    from [killChan] once a signal is delivered, logs, and runs the deferred
    function (if the access log was opened) on its way out. *)
Definition main_step (t : TrafficController) (pc : MainPc) (σ : World)
  : option (MainPc * World) :=
  match pc with
  | AtProfiler accessLog =>
      let p := profiler_New (PProfPort (conf t)) in
      Some (AtNotify accessLog, emit (Go (ProfilerStart p)) σ)
  | AtNotify accessLog => Some (AtWait accessLog, emit SignalNotify σ)
  | AtWait accessLog => Some (AtShutdown accessLog, σ)
  | AtShutdown accessLog =>
      Some (match accessLog with
            | Some file => AtSync file
            | None => MainReturned None
            end,
            emit (Log "Shutting down") σ)
  | AtSync file => Some (AtClose file, emit (Sync file) σ)
  | AtClose file => Some (MainReturned (Some file), emit (Close file) σ)
  | MainExited | MainPanicked | MainReturned _ => None
  end.

(** What the goroutine of the func literal does next; [net.Listen] may
    fail or give a listener, and [http.Serve] may return, with an error. *)
Inductive serve_step : ServePc → list ServeEvent → ServePc → list ServeEvent → Prop :=
| listen_fails addr h msg g :
    serve_step (AtListen addr h) g
      (ListenFailed addr h msg) (g ++ [CallListen "tcp" addr; ServeLog msg])
| listen_binds addr h lis g :
    serve_step (AtListen addr h) g
      (AtBound addr lis h) (g ++ [CallListen "tcp" addr])
| logs_bound addr lis h g :
    serve_step (AtBound addr lis h) g
      (AtServe addr lis h) (g ++ [ServeLog ("ws bound to: " +:+ Addr lis)])
| calls_serve addr lis h g :
    serve_step (AtServe addr lis h) g
      (InServe addr lis h) (g ++ [CallServe lis h])
| serve_returns addr lis h msg g :
    serve_step (InServe addr lis h) g
      (ServeReturned addr lis h msg) (g ++ [ServeLog msg]).

(** One step of the process: one of the two goroutines moves, as long as
    the process is alive. *)
Inductive step (t : TrafficController) : Process → Process → Prop :=
| step_main cfg pc' σ' :
    alive cfg = true →
    main_step t (main cfg) (world cfg) = Some (pc', σ') →
    step t cfg {| main := pc'; serve := serve cfg; world := σ'; serving := serving cfg |}
| step_serve cfg pc' g' :
    alive cfg = true →
    serve_step (serve cfg) (serving cfg) pc' g' →
    step t cfg {| main := main cfg; serve := pc'; world := world cfg; serving := g' |}.

(** [func (t *TrafficController) Start()]: the configurations a run of
    [Start] from [σ] passes through. *)
Definition Start (t : TrafficController) (σ : World) (cfg : Process) : Prop :=
  rtc (step t) (launch t σ) cfg.

(** The events the goroutine that runs [Start] has left behind since the
    [go] statement, by where it stands. *)
Definition main_events (t : TrafficController) (pc : MainPc) : list Event :=
  let p := Go (ProfilerStart (profiler_New (PProfPort (conf t)))) in
  match pc with
  | MainExited | MainPanicked | AtProfiler _ => []
  | AtNotify _ => [p]
  | AtWait _ | AtShutdown _ => [p; SignalNotify]
  | AtSync _ | MainReturned None => [p; SignalNotify; Log "Shutting down"]
  | AtClose file => [p; SignalNotify; Log "Shutting down"; Sync file]
  | MainReturned (Some file) =>
      [p; SignalNotify; Log "Shutting down"; Sync file; Close file]
  end.

(** The events of the goroutine of the func literal, by where it stands. *)
Definition serve_events (pc : ServePc) : list ServeEvent :=
  match pc with
  | NotStarted | AtListen _ _ => []
  | AtBound addr lis h => [CallListen "tcp" addr]
  | AtServe addr lis h =>
      [CallListen "tcp" addr; ServeLog ("ws bound to: " +:+ Addr lis)]
  | InServe addr lis h =>
      [CallListen "tcp" addr; ServeLog ("ws bound to: " +:+ Addr lis); CallServe lis h]
  | ListenFailed addr h msg => [CallListen "tcp" addr; ServeLog msg]
  | ServeReturned addr lis h msg =>
      [CallListen "tcp" addr; ServeLog ("ws bound to: " +:+ Addr lis);
       CallServe lis h; ServeLog msg]
  end.

(** The access log a position of the goroutine that runs [Start] carries,
    and the address and handler a position of the other carries. *)
Definition access_of (pc : MainPc) : option (option File) :=
  match pc with
  | MainExited | MainPanicked => None
  | AtProfiler a | AtNotify a | AtWait a | AtShutdown a | MainReturned a => Some a
  | AtSync file | AtClose file => Some (Some file)
  end.

Definition handler_of (pc : ServePc) : option (string * Handler) :=
  match pc with
  | NotStarted => None
  | AtListen addr h | AtBound addr _ h | AtServe addr _ h | InServe addr _ h
  | ListenFailed addr h _ | ServeReturned addr _ h _ => Some (addr, h)
  end.

(** What a configuration keeps of the one [Start] was launched in: the
    package variables, the traces as its two positions give them, the
    access log, and the address and handler of the func literal. *)
Definition tracks (t : TrafficController) (L cfg : Process) : Prop :=
  DefaultEmitter (world cfg) = DefaultEmitter (world L)
  ∧ DefaultTransport (world cfg) = DefaultTransport (world L)
  ∧ trace (world cfg) = trace (world L) ++ main_events t (main cfg)
  ∧ serving cfg = serve_events (serve cfg)
  ∧ access_of (main cfg) = access_of (main L)
  ∧ handler_of (serve cfg) = handler_of (serve L).

(** The batcher of the connector behind a handler. *)
Fixpoint handler_batcher (h : Handler) : MetricBatcher :=
  match h with
  | NewDopplerProxy _ _ connector _ _ _ _ _ => connector_batcher connector
  | Access _ _ _ inner => handler_batcher inner
  end.

(** Projections of the trace of the goroutine that runs [Start]: the
    goroutines it starts, the addresses of the health endpoint servers it
    starts, the files it opens or tries to open, the files it syncs and
    closes, the destinations it asks a UDP emitter for, and the lines it
    hands to [log]. *)
Definition started (tr : list Event) : list Goroutine :=
  omap (fun e => match e with Go g => Some g | _ => None end) tr.

Definition health_servers (tr : list Event) : list string :=
  omap (fun e => match e with StartServer addr _ => Some addr | _ => None end) tr.

Definition opened_files (tr : list Event) : list string :=
  omap (fun e => match e with CallOpenFile name _ _ => Some name | _ => None end) tr.

Definition synced (tr : list Event) : list File :=
  omap (fun e => match e with Sync f => Some f | _ => None end) tr.

Definition closed (tr : list Event) : list File :=
  omap (fun e => match e with Close f => Some f | _ => None end) tr.

Definition dialled (tr : list Event) : list string :=
  omap (fun e => match e with CallNewUdpEmitter d => Some d | _ => None end) tr.

Definition logged (tr : list Event) : list string :=
  omap (fun e => match e with Log line => Some line | _ => None end) tr.


Definition served (g : list ServeEvent) : list (Listener * Handler) :=
  omap (fun e => match e with CallServe lis h => Some (lis, h) | _ => None end) g.

End TrafficController.

Global Arguments EventEmitter : clear implicits.
Global Arguments RoundTripper : clear implicits.
Global Arguments Event : clear implicits.
Global Arguments World : clear implicits.
Global Arguments Handler : clear implicits.
Global Arguments TrafficController : clear implicits.
Global Arguments Process : clear implicits.
Global Arguments ServeEvent : clear implicits.
Global Arguments MainPc : clear implicits.
Global Arguments ServePc : clear implicits.

(** A configuration and a controller for the instances, over one-point
    types, with the environment's answers fixed. *)
Definition sampleConfig (udpAddress securityEventLog : string) : Config :=
  {| Agent := {| UDPAddress := udpAddress |};
     ApiHost := "api.example.com";
     UaaHost := "uaa.example.com";
     UaaClient := "client";
     UaaClientSecret := "secret";
     HealthAddr := "localhost:14825";
     GRPC := {| CertFile := "tc.crt"; KeyFile := "tc.key"; CAFile := "ca.crt" |};
     RouterAddrs := ["10.0.0.1:8082"];
     SystemDomain := "example.com";
     SecurityEventLog := securityEventLog;
     IP := "10.0.0.9";
     OutgoingDropsondePort := 8081;
     PProfPort := 6060 |}.

Definition sampleController (udpAddress securityEventLog : string)
  : TrafficController unit unit :=
  NewTrafficController (sampleConfig udpAddress securityEventLog) false tt tt tt.

Definition sampleWorld : World unit unit unit unit unit unit unit :=
  {| DefaultEmitter := Prior tt; DefaultTransport := Plain tt; trace := [] |}.

Definition udpUp : World unit unit unit unit unit unit unit → string → unit + string :=
  fun _ _ => inl tt.
Definition udpDown : World unit unit unit unit unit unit unit → string → unit + string :=
  fun _ _ => inr "no route".
Definition credsUp
  : World unit unit unit unit unit unit unit → string → string → string → string
    → unit + string :=
  fun _ _ _ _ _ => inl tt.
Definition fileUp : World unit unit unit unit unit unit unit → string → unit + string :=
  fun _ _ => inl tt.
Definition fileDown : World unit unit unit unit unit unit unit → string → unit + string :=
  fun _ _ => inr "permission denied".

End App.

(** * Properties of the relay *)

Module RelayFacts.
Import Relay.

Section Loop.
Context {Loc World : Type}.
Implicit Types (rp : Repeater Loc World) (s : state Loc World).
Implicit Types (ps : list (ptr Loc)) (t : list (event Loc)).

(** One pass, call by call. *)
Lemma pass_unfold rp s :
  pass rp s =
  match r rp (world s) with
  | None => Blocked s
  | Some (p, σ1) =>
      match w rp p σ1 with
      | Some σ2 => Done Next (State σ2 (log s ++ [EvRead p; EvWrite p]))
      | None => Blocked (State σ1 (log s ++ [EvRead p; EvWrite p]))
      end
  end.
Proof.
  unfold pass, mbind, M_bind, call_r, call_w, mret, M_ret.
  destruct (r rp (world s)) as [[p σ1]|]; [|done]. cbn.
  destruct (w rp p σ1) as [σ2|]; cbn; by rewrite <- app_assoc.
Qed.

Lemma relayed_cons (p : ptr Loc) ps :
  relayed (p :: ps) = EvRead p :: EvWrite p :: relayed ps.
Proof. reflexivity. Qed.

Lemma reads_relayed ps : reads (relayed ps) = ps.
Proof. induction ps as [|p ps IH]; [done|]. rewrite relayed_cons. cbn. by f_equal. Qed.

Lemma writes_relayed ps : writes (relayed ps) = ps.
Proof. induction ps as [|p ps IH]; [done|]. rewrite relayed_cons. cbn. by f_equal. Qed.

(** The log only grows, by whole read-write pairs, at most one per pass. *)
Lemma Start_log n rp s :
  ∃ ps, log (final (Start n rp s)) = log s ++ relayed ps ∧ length ps ≤ n.
Proof.
  revert s. induction n as [|n IH]; intros s.
  { exists []. cbn. by rewrite app_nil_r. }
  unfold Start. cbn [for_]. rewrite pass_unfold.
  destruct (r rp (world s)) as [[p σ1]|].
  2:{ exists []. cbn. split; [by rewrite app_nil_r | lia]. }
  destruct (w rp p σ1) as [σ2|].
  - destruct (IH (State σ2 (log s ++ [EvRead p; EvWrite p]))) as (ps & Hlog & Hlen).
    exists (p :: ps). fold (Start n rp (State σ2 (log s ++ [EvRead p; EvWrite p]))).
    rewrite Hlog. cbn [log length]. rewrite relayed_cons, <- app_assoc.
    split; [done | lia].
  - exists [p]. cbn. split; [done | lia].
Qed.

(** No pass leaves the loop. *)
Lemma Start_not_Returned n rp s s' : Start n rp s ≠ Returned s'.
Proof.
  revert s. induction n as [|n IH]; intros s; [done|].
  unfold Start. cbn [for_]. rewrite pass_unfold.
  destruct (r rp (world s)) as [[p σ1]|]; [|done].
  destruct (w rp p σ1) as [σ2|]; [apply IH | done].
Qed.

(** With a reader and a writer that always come back the loop is still
    going after any number of passes. *)
Lemma Start_Running n rp s :
  (∀ σ, is_Some (r rp σ)) → (∀ p σ, is_Some (w rp p σ)) →
  ∃ s', Start n rp s = Running s'.
Proof.
  intros Hr Hw. revert s. induction n as [|n IH]; intros s; [by eexists|].
  unfold Start. cbn [for_]. rewrite pass_unfold.
  destruct (Hr (world s)) as [[p σ1] ->].
  destruct (Hw p σ1) as [σ2 ->]. apply IH.
Qed.

(** With a reader and a writer that always come back, [n] passes read
    [n] pointers and write each of them, and the loop is still going. *)
Lemma Start_Running_relayed n rp s :
  (∀ σ, is_Some (r rp σ)) → (∀ p σ, is_Some (w rp p σ)) →
  ∃ s' ps, Start n rp s = Running s'
           ∧ log s' = log s ++ relayed ps ∧ length ps = n.
Proof.
  intros Hr Hw. revert s. induction n as [|n IH]; intros s.
  { exists s, []. cbn. by rewrite app_nil_r. }
  unfold Start. cbn [for_]. rewrite pass_unfold.
  destruct (Hr (world s)) as [[p σ1] ->].
  destruct (Hw p σ1) as [σ2 ->].
  destruct (IH (State σ2 (log s ++ [EvRead p; EvWrite p]))) as (s' & ps & Hrun & Hlog & Hlen).
  exists s', (p :: ps). split; [exact Hrun|].
  rewrite Hlog. cbn [log length]. rewrite relayed_cons, <- app_assoc.
  split; [done | lia].
Qed.

End Loop.

(** The relay fed with [nil] for ever: every pass reads a [nil] and
    writes it, and the loop goes on. *)
Lemma Start_exhausted n t :
  Start n (NewRepeater exhausted discard) (State tt t)
  = Running (State tt (t ++ relayed (replicate n nil))).
Proof.
  revert t. induction n as [|n IH]; intros t.
  { cbn. by rewrite app_nil_r. }
  unfold Start. cbn [for_]. rewrite pass_unfold. cbn.
  etrans; [exact (IH (t ++ [EvRead nil; EvWrite nil]))|].
  by rewrite <- app_assoc.
Qed.

Section Recorder.
Context {Loc R : Type}.
Implicit Types (rd : R → option (ptr Loc * R)).

(** The recording writer holds what the reader has handed out so far. *)
Lemma recorded_produced rd n ρ acc t :
  recorded (Start n (NewRepeater (reader_of rd) recorder) (State (ρ, acc) t))
  = acc ++ produced rd n ρ.
Proof.
  revert ρ acc t. induction n as [|n IH]; intros ρ acc t.
  { cbn. by rewrite app_nil_r. }
  unfold Start. cbn [for_]. rewrite pass_unfold. cbn.
  unfold reader_of. cbn. destruct (rd ρ) as [[p ρ']|]; cbn.
  - etrans; [exact (IH ρ' (acc ++ [p]) (t ++ [EvRead p; EvWrite p]))|].
    by rewrite <- app_assoc.
  - unfold recorded. cbn. by rewrite app_nil_r.
Qed.

End Recorder.

Lemma produced_supply {Loc : Type} (l : list (ptr Loc)) k :
  produced supply (length l + k) l = l.
Proof. induction l as [|p l IH]; [by destruct k | cbn; by f_equal]. Qed.

(** A reader that answers [nil] on every call, over any private state. *)
Lemma produced_nil {Loc R : Type} n (ρ : R) :
  produced (fun ρ => Some (@nil Loc, ρ)) n ρ = replicate n nil.
Proof. induction n as [|n IH]; [done | cbn; by f_equal]. Qed.

(** C4. Whatever the reader and the writer are, the log of [Start] is a
    run of read-write pairs, each pointer written right after it was read
    and before the next read, so that the sequence of writes is the
    sequence of reads. With a recording writer the record is what the
    reader has produced; a reader that produces E1, E2, E3 and then has
    nothing more leaves the record at exactly E1, E2, E3, however long the
    relay goes on. *)
Theorem Start_writes_what_it_reads :
  (∀ (Loc World : Type) (rp : Repeater Loc World) (σ : World) (n : nat),
     let t := log (final (Start n rp (State σ []))) in
     t = relayed (reads t) ∧ writes t = reads t)
  ∧ (∀ (Loc R : Type) (rd : R → option (ptr Loc * R)) (ρ : R) (n : nat),
       recorded (Start n (NewRepeater (reader_of rd) recorder) (State (ρ, []) []))
       = produced rd n ρ)
  ∧ (∀ (Loc : Type) (E1 E2 E3 : ptr Loc) (k : nat),
       final (Start (3 + k) (NewRepeater (reader_of supply) recorder)
                (State ([E1; E2; E3], []) []))
       = State ([], [E1; E2; E3])
           [EvRead E1; EvWrite E1; EvRead E2; EvWrite E2; EvRead E3; EvWrite E3]).
Proof.
  split; [|split].
  - intros Loc World rp σ n t.
    destruct (Start_log n rp (State σ [])) as (ps & Hlog & _).
    cbn in Hlog. subst t. rewrite Hlog.
    by rewrite reads_relayed, writes_relayed.
  - intros Loc R rd ρ n. by rewrite recorded_produced.
  - intros Loc E1 E2 E3 [|k]; reflexivity.
Qed.

(** C5, as the code has it. [Start] never returns: no number of passes
    ends the loop, whatever the reader hands out and whatever the world
    holds, and the repeater has no stop operation. With a reader and a
    writer that always come back it goes on reading one pointer and
    writing it: after [n] passes it has read [n] pointers, written each of
    them in turn, and is still looping. *)
Theorem Start_blocks_indefinitely :
  ∀ (Loc World : Type) (rp : Repeater Loc World),
    (∀ n s s', Start n rp s ≠ Returned s')
    ∧ ((∀ σ, is_Some (r rp σ)) → (∀ p σ, is_Some (w rp p σ)) →
       ∀ n s, ∃ s' ps,
         Start n rp s = Running s'
         ∧ log s' = log s ++ relayed ps
         ∧ reads (relayed ps) = ps ∧ writes (relayed ps) = ps
         ∧ length ps = n).
Proof.
  intros Loc World rp. split.
  - intros n s s'. apply Start_not_Returned.
  - intros Hr Hw n s.
    destruct (Start_Running_relayed n rp s Hr Hw) as (s' & ps & Hrun & Hlog & Hlen).
    exists s', ps. by rewrite reads_relayed, writes_relayed.
Qed.

Lemma Start_blocks_indefinitely_witness :
  ∃ s' ps,
    Start 2 (NewRepeater exhausted discard) (State tt []) = Running s'
    ∧ log s' = [] ++ relayed ps
    ∧ reads (relayed ps) = ps ∧ writes (relayed ps) = ps
    ∧ length ps = 2.
Proof.
  apply (proj2 (Start_blocks_indefinitely Empty_set unit (NewRepeater exhausted discard))).
  - intros σ. eexists. reflexivity.
  - intros p σ. eexists. reflexivity.
Defined.

(** C5, as stated, fails: a reader that has nothing more to hand out can
    only say so with [nil], and [Start] does not return on it; it writes
    every [nil] it reads and goes on. *)
Lemma Start_returns_on_end_of_input_fails :
  ¬ (∃ n s', Start n (NewRepeater exhausted discard) (State tt []) = Returned s')
  ∧ (∀ n, Start n (NewRepeater exhausted discard) (State tt [])
          = Running (State tt (relayed (replicate n nil)))).
Proof.
  split.
  - intros (n & s' & H). by apply Start_not_Returned in H.
  - intros n. apply Start_exhausted.
Qed.

(** C10. Every value the reader returns is passed to the writer, once,
    as it is and on the world the reader left; the number of writes is the
    number of reads and the i-th write carries the i-th pointer read. A
    [nil] is no exception: it is written like any other pointer and the
    loop goes on. *)
Theorem Start_forwards_every_pointer :
  (∀ (Loc World : Type) (rp : Repeater Loc World) (s : state Loc World)
     (p : ptr Loc) (σ1 : World) (n : nat),
     r rp (world s) = Some (p, σ1) →
     Start (S n) rp s =
     match w rp p σ1 with
     | Some σ2 => Start n rp (State σ2 (log s ++ [EvRead p; EvWrite p]))
     | None => Waiting (State σ1 (log s ++ [EvRead p; EvWrite p]))
     end)
  ∧ (∀ (Loc World : Type) (rp : Repeater Loc World) (σ : World) (n : nat),
       let t := log (final (Start n rp (State σ []))) in
       length (writes t) = length (reads t)
       ∧ ∀ i p, reads t !! i = Some p → writes t !! i = Some p)
  ∧ (∀ (Loc R : Type) (ρ : R) (n : nat),
       recorded (Start n (NewRepeater (reader_of (fun ρ => Some (nil, ρ))) recorder)
                   (State (ρ, []) []))
       = replicate n (@nil Loc)).
Proof.
  split; [|split].
  - intros Loc World rp s p σ1 n Hr.
    unfold Start. cbn [for_]. rewrite pass_unfold, Hr.
    by destruct (w rp p σ1).
  - intros Loc World rp σ n t.
    destruct (Start_log n rp (State σ [])) as (ps & Hlog & _).
    cbn in Hlog. subst t. rewrite Hlog.
    by rewrite reads_relayed, writes_relayed.
  - intros Loc R ρ n. by rewrite recorded_produced, produced_nil.
Qed.

Lemma Start_forwards_every_pointer_witness :
  Start 3 (NewRepeater exhausted discard) (State tt [])
  = Start 2 (NewRepeater exhausted discard) (State tt [EvRead nil; EvWrite nil]).
Proof.
  exact (proj1 Start_forwards_every_pointer Empty_set unit
           (NewRepeater exhausted discard) (State tt []) nil tt 2 eq_refl).
Defined.

(** ** Further properties of [Start] *)

Section Passes.
Context {Loc World : Type}.
Implicit Types (rp : Repeater Loc World) (s : state Loc World).

(** One more pass at the front. *)
Lemma Start_S n rp s :
  Start (S n) rp s =
  match pass rp s with
  | Blocked s' => Waiting s'
  | Done Leave s' => Returned s'
  | Done Next s' => Start n rp s'
  end.
Proof. reflexivity. Qed.

Lemma Start_Running_log n rp s :
  (∀ σ, is_Some (r rp σ)) → (∀ p σ, is_Some (w rp p σ)) →
  ∃ ps, log (final (Start n rp s)) = log s ++ relayed ps ∧ length ps = n.
Proof.
  intros Hr Hw. revert s. induction n as [|n IH]; intros s.
  { exists []. cbn. by rewrite app_nil_r. }
  rewrite Start_S, pass_unfold.
  destruct (Hr (world s)) as [[p σ1] ->].
  destruct (Hw p σ1) as [σ2 ->].
  destruct (IH (State σ2 (log s ++ [EvRead p; EvWrite p]))) as (ps & Hlog & Hlen).
  exists (p :: ps). rewrite Hlog. cbn [log length].
  rewrite relayed_cons, <- app_assoc. split; [done | lia].
Qed.

(** X3. With a reader and a writer that always come back, every pass moves
    exactly one pointer: after [n] passes there have been [n] reads and
    [n] writes. *)
Theorem Start_one_per_pass n rp (σ : World) :
  (∀ σ, is_Some (r rp σ)) → (∀ p σ, is_Some (w rp p σ)) →
  let t := log (final (Start n rp (State σ []))) in
  length (reads t) = n ∧ length (writes t) = n.
Proof.
  intros Hr Hw t.
  destruct (Start_Running_log n rp (State σ []) Hr Hw) as (ps & Hlog & Hlen).
  cbn in Hlog. subst t. rewrite Hlog.
  by rewrite reads_relayed, writes_relayed.
Qed.

(** X4. [Start] has no effect of its own on the world: a property of the
    world that every call of the reader and every call of the writer
    keeps still holds wherever the relay stands. *)
Theorem Start_keeps_invariant (I : World → Prop) n rp s :
  (∀ σ p σ', I σ → r rp σ = Some (p, σ') → I σ') →
  (∀ σ p σ', I σ → w rp p σ = Some σ' → I σ') →
  I (world s) → I (world (final (Start n rp s))).
Proof.
  intros Hr Hw. revert s. induction n as [|n IH]; intros s Hs; [done|].
  rewrite Start_S, pass_unfold.
  destruct (r rp (world s)) as [[p σ1]|] eqn:Er; [|done].
  pose proof (Hr _ _ _ Hs Er) as H1.
  destruct (w rp p σ1) as [σ2|] eqn:Ew; [|done].
  apply IH. cbn. by eapply Hw.
Qed.

End Passes.

Lemma Start_one_per_pass_witness :
  let t := log (final (Start 4 (NewRepeater exhausted discard) (State tt []))) in
  length (reads t) = 4 ∧ length (writes t) = 4.
Proof.
  apply (Start_one_per_pass 4 (NewRepeater exhausted discard) tt).
  - intros σ. eexists. reflexivity.
  - intros p σ. eexists. reflexivity.
Defined.

(** The record of the recording writer only grows by the pointer written:
    its length never goes down across a run that starts from three
    pointers on record. *)
Lemma Start_keeps_invariant_witness :
  3 ≤ length (world (final (Start 2
        (NewRepeater (reader_of supply) (@recorder Empty_set _))
        (State ([nil; nil], [nil; nil; nil]) [])))).2.
Proof.
  apply (Start_keeps_invariant (fun σ => 3 ≤ length σ.2) 2
           (NewRepeater (reader_of supply) (@recorder Empty_set _))
           (State ([nil; nil], [nil; nil; nil]) [])).
  - intros σ p σ' Hσ Hr. cbn in Hr. unfold reader_of in Hr.
    destruct (supply σ.1) as [[q l]|]; [|discriminate].
    injection Hr as _ <-. exact Hσ.
  - intros σ p σ' Hσ Hw. injection Hw as <-. cbn.
    rewrite length_app. cbn. lia.
  - cbn. lia.
Defined.

End RelayFacts.

(** * Properties of the drop-oldest buffer *)

Module BufferFacts.
Import Buffer.

Section Pushes.
Context {Envelope : Type}.
Implicit Types (b : TruncatingBuffer Envelope) (e : Envelope) (es : list Envelope).

Lemma Push_capacity e b : capacity (Push e b) = capacity b.
Proof. unfold Push. case_decide; [destruct (held b)|]; done. Qed.

Lemma fed_New C : fed C ([] : list Envelope) (NewTruncatingBuffer C).
Proof. split; [done|]. exists []. cbn. repeat split; lia. Qed.

Lemma fed_Push C es e b : 0 < C → fed C es b → fed C (es ++ [e]) (Push e b).
Proof.
  intros HC (Hcap & gone & Hes & Hdrop & Hlen).
  split; [by rewrite Push_capacity|].
  unfold Push. rewrite Hcap. case_decide as Hfull.
  - destruct (held b) as [|x rest] eqn:Hheld; [cbn in Hfull; lia|].
    exists (gone ++ [x]). cbn [held dropped].
    apply (f_equal length) in Hes as Hn. rewrite length_app in Hn.
    rewrite !length_app. cbn [length] in *. repeat split.
    + rewrite Hes, <- !app_assoc. done.
    + lia.
    + lia.
  - exists gone. cbn [held dropped].
    apply (f_equal length) in Hes as Hn. rewrite length_app in Hn.
    rewrite !length_app. cbn [length]. repeat split.
    + rewrite Hes, <- !app_assoc. done.
    + done.
    + lia.
Qed.

Lemma fed_Run C es : 0 < C → fed C es (RunTruncatingBuffer es C).
Proof.
  intros HC. unfold RunTruncatingBuffer, Run.
  induction es as [|e es IH] using rev_ind; [apply fed_New|].
  rewrite foldl_snoc. by apply fed_Push.
Qed.

Lemma fed_held C es b : fed C es b → held b = drop (length es - C) es.
Proof.
  intros (_ & gone & Hes & _ & Hlen).
  rewrite Hes at 2. rewrite drop_app_length'; [done|].
  rewrite Hes, length_app in *. lia.
Qed.

Lemma fed_dropped C es b : fed C es b → dropped b = length es - C.
Proof.
  intros (_ & gone & Hes & Hdrop & Hlen).
  rewrite Hes, length_app in *. lia.
Qed.

End Pushes.

(** C1. For a capacity C > 0, after n pushes and no pop: when n exceeds C
    the buffer holds the last C envelopes pushed, in push order, and its
    counter is n - C; when n is at most C it holds all of them and the
    counter is 0. *)
Theorem Push_keeps_most_recent (Envelope : Type) (C : nat) (es : list Envelope) :
  0 < C →
  let b := RunTruncatingBuffer es C in
  (C < length es →
     held b = drop (length es - C) es ∧ length (held b) = C
     ∧ dropped b = length es - C)
  ∧ (length es ≤ C → held b = es ∧ dropped b = 0).
Proof.
  intros HC b. pose proof (fed_Run C es HC) as Hfed. fold b in Hfed.
  pose proof (fed_held _ _ _ Hfed) as Hheld.
  pose proof (fed_dropped _ _ _ Hfed) as Hdrop.
  split; intros Hn.
  - repeat split; [done | | done]. rewrite Hheld, length_drop. lia.
  - split; [|lia]. rewrite Hheld. replace (length es - C) with 0 by lia. done.
Qed.

Lemma Push_keeps_most_recent_witness :
  let b := RunTruncatingBuffer [10; 20; 30; 40; 50] 2 in
  held b = [40; 50] ∧ length (held b) = 2 ∧ dropped b = 3.
Proof.
  apply (proj1 (Push_keeps_most_recent nat 2 [10; 20; 30; 40; 50] ltac:(lia))).
  cbn. lia.
Defined.

Section Sessions.
Context {Envelope : Type}.
Implicit Types (s : session Envelope) (o : op Envelope) (P : list Envelope).





End Sessions.

Section Relabel.
Context {A B : Type} (f : A → B).





End Relabel.

Section Stamps.
Context {Envelope : Type}.



End Stamps.






End BufferFacts.

(** * Properties of the conversion *)

Module ConversionFacts.
Import loggregator_v2 Conversion.

Section Normalizer.
Context {float64 ContainerMetric Other : Type}.
Context (fromContainerMetric : ContainerMetric → Message float64 Other).
Context (oldNameKey : string).

Local Abbreviation Envelope_v1 := (events.Envelope float64 ContainerMetric).
Local Abbreviation World' := (World float64 ContainerMetric Other).
Local Abbreviation Normalize' := (Normalize fromContainerMetric oldNameKey).

Lemma lookup_setTag_eq k v (tags : gmap string Value) :
  setTag k v tags !! k = Some (Value_Text v).
Proof. apply lookup_insert_eq. Qed.

Lemma lookup_setTag_ne k k' v (tags : gmap string Value) :
  k ≠ k' → setTag k v tags !! k' = tags !! k'.
Proof. apply lookup_insert_ne. Qed.

Lemma lookup_setOptTag_ne k k' o (tags : gmap string Value) :
  k ≠ k' → setOptTag k o tags !! k' = tags !! k'.
Proof. intros Hk. destruct o; [by apply lookup_setTag_ne | done]. Qed.

(** The reserved keys never hide one another. *)
Lemma initTags_v1_type (e : Envelope_v1) :
  initTags e !! "__v1_type" = Some (Value_Text (typeName (events.GetEventType e))).
Proof.
  unfold initTags. rewrite !lookup_setOptTag_ne by done. apply lookup_setTag_eq.
Qed.

(** A call on an envelope that converts, step by step. *)
Lemma ToV2_Converted p b (σ : World') e v2e :
  legacy σ !! p = Some e →
  Normalize' e b = Converted v2e →
  ToV2 fromContainerMetric oldNameKey p b σ =
  (Some (Converted (fresh (dom (current σ)))),
   {| legacy := legacy σ;
      current := <[fresh (dom (current σ)) := v2e]> (current σ);
      written := written σ |}).
Proof. intros Hp Hn. unfold ToV2. by rewrite Hp, Hn. Qed.

(** C3. Converting, with [preserveOldMetricNames] off, a legacy error
    envelope with source "test-source", code 12345 and message
    "test-message", whatever its timestamp and metadata, gives a current
    envelope whose tags hold source = "test-source", code = "12345" and
    __v1_type = "Error", and whose payload is a log with content
    "test-message" on standard-out. *)
Theorem ToV2_Error_envelope (ts : Z) (origin deployment job index ip : option string)
    (p : positive) (σ : World') :
  let v1Envelope : Envelope_v1 :=
    {| events.Timestamp := ts;
       events.Origin := origin;
       events.Deployment := deployment;
       events.Job := job;
       events.Index := index;
       events.Ip := ip;
       events.payload := events.OfError
         {| events.Source := "test-source";
            events.Code := 12345;
            events.Message := "test-message" |} |} in
  legacy σ !! p = Some v1Envelope →
  ∃ l converted,
    (ToV2 fromContainerMetric oldNameKey p false σ).1 = Some (Converted l)
    ∧ current (ToV2 fromContainerMetric oldNameKey p false σ).2 !! l = Some converted
    ∧ DeprecatedTags converted !! "source" = Some (Value_Text "test-source")
    ∧ DeprecatedTags converted !! "code" = Some (Value_Text "12345")
    ∧ DeprecatedTags converted !! "__v1_type" = Some (Value_Text "Error")
    ∧ Message_ converted
      = Some (Envelope_Log {| Payload := "test-message"; Type_ := Log_OUT |}).
Proof.
  intros v1Envelope Hp.
  rewrite (ToV2_Converted p false σ v1Envelope _ Hp eq_refl).
  eexists _, _. split; [reflexivity|]. split; [apply lookup_insert_eq|].
  cbn [DeprecatedTags Message_]. repeat split.
  - rewrite lookup_setTag_ne by done. apply lookup_setTag_eq.
  - apply lookup_setTag_eq.
  - rewrite !lookup_setTag_ne by done. apply initTags_v1_type.
Qed.

(** The scenario of the conversion test: every expected tag is in the
    converted envelope and the message is the expected one. *)
Lemma ToV2_conversion_test (p : positive) (σ : World') :
  let v1Envelope : Envelope_v1 :=
    {| events.Timestamp := 0;
       events.Origin := Some "fake-origin";
       events.Deployment := Some "some-deployment";
       events.Job := Some "some-job";
       events.Index := Some "some-index";
       events.Ip := Some "some-ip";
       events.payload := events.OfError
         {| events.Source := "test-source";
            events.Code := 12345;
            events.Message := "test-message" |} |} in
  let expectedTags : gmap string Value :=
    <["__v1_type" := Value_Text "Error"]>
    (<["source" := Value_Text "test-source"]>
    (<["code" := Value_Text "12345"]>
    (<["origin" := Value_Text "fake-origin"]>
    (<["deployment" := Value_Text "some-deployment"]>
    (<["job" := Value_Text "some-job"]>
    (<["index" := Value_Text "some-index"]>
    (<["ip" := Value_Text "some-ip"]> ∅))))))) in
  legacy σ !! p = Some v1Envelope →
  ∃ l converted,
    (ToV2 fromContainerMetric oldNameKey p false σ).1 = Some (Converted l)
    ∧ current (ToV2 fromContainerMetric oldNameKey p false σ).2 !! l = Some converted
    ∧ expectedTags ⊆ DeprecatedTags converted
    ∧ Message_ converted
      = Some (Envelope_Log {| Payload := "test-message"; Type_ := Log_OUT |}).
Proof.
  intros v1Envelope expectedTags Hp.
  rewrite (ToV2_Converted p false σ v1Envelope _ Hp eq_refl).
  eexists _, _. split; [reflexivity|]. split; [apply lookup_insert_eq|].
  split; [|reflexivity].
  cbn [DeprecatedTags]. subst expectedTags.
  apply map_subseteq_spec. intros k v.
  unfold initTags, setOptTag, setTag. cbn [events.Ip events.Index events.Job
    events.Deployment events.Origin events.payload events.Source events.Code
    events.GetEventType typeName v1Envelope].
  rewrite !lookup_insert. repeat case_decide; subst; try done.
Qed.

End Normalizer.

Lemma ToV2_Error_envelope_witness :
  ∃ l converted,
    (ToV2 timer "name" 1 false (holding errorEnvelope)).1 = Some (Converted l)
    ∧ current (ToV2 timer "name" 1 false (holding errorEnvelope)).2 !! l = Some converted
    ∧ DeprecatedTags converted !! "source" = Some (Value_Text "test-source")
    ∧ DeprecatedTags converted !! "code" = Some (Value_Text "12345")
    ∧ DeprecatedTags converted !! "__v1_type" = Some (Value_Text "Error")
    ∧ Message_ converted
      = Some (Envelope_Log {| Payload := "test-message"; Type_ := Log_OUT |}).
Proof.
  apply (ToV2_Error_envelope timer "name" 0 (Some "fake-origin")
           (Some "some-deployment") (Some "some-job") (Some "some-index")
           (Some "some-ip") 1%positive (holding errorEnvelope)).
  reflexivity.
Defined.

End ConversionFacts.

(** * Properties of the traffic controller *)

Module AppFacts.
Import App.

Section TrafficController.
Context {UdpEmitter PriorEmitter Transport HttpClient MetricClient Creds File : Type}.

Local Abbreviation World' :=
  (World UdpEmitter PriorEmitter Transport HttpClient MetricClient Creds File).
Local Abbreviation Controller :=
  (TrafficController HttpClient MetricClient).

Context (NewUdpEmitter : World' → string → UdpEmitter + string).
Context (NewClientCredentials : World' → string → string → string → string → Creds + string).
Context (OpenFile : World' → string → File + string).

Implicit Types (t : Controller) (σ : World') (origin destination : string).

(** X5. [setupDefaultEmitter] succeeds exactly when origin and destination are
    not empty and the UDP emitter could be made; [DefaultEmitter] is then
    the event emitter over it, for the given origin. *)
Theorem setupDefaultEmitter_succeeds t origin destination σ :
  (setupDefaultEmitter NewUdpEmitter t origin destination σ).1 = None
  ↔ origin ≠ "" ∧ destination ≠ ""
    ∧ ∃ udpEmitter,
        NewUdpEmitter σ destination = inl udpEmitter
        ∧ DefaultEmitter (setupDefaultEmitter NewUdpEmitter t origin destination σ).2
          = NewEventEmitter udpEmitter origin.
Proof.
  unfold setupDefaultEmitter.
  destruct (decide (origin = "")) as [->|Ho]; [split; [done | by intros [? _]]|].
  destruct (decide (destination = "")) as [->|Hd]; [split; [done | by intros (_ & ? & _)]|].
  destruct (NewUdpEmitter σ destination) as [udpEmitter|msg]; cbn.
  - split; [|done]. intros _. repeat split; try done. by exists udpEmitter.
  - split; [done|]. by intros (_ & _ & u & ? & _).
Qed.

(** X6. When [setupDefaultEmitter] returns an error the two package variables
    are what they were. *)
Theorem setupDefaultEmitter_failure_keeps_globals t origin destination σ :
  (setupDefaultEmitter NewUdpEmitter t origin destination σ).1 ≠ None →
  DefaultEmitter (setupDefaultEmitter NewUdpEmitter t origin destination σ).2
  = DefaultEmitter σ
  ∧ DefaultTransport (setupDefaultEmitter NewUdpEmitter t origin destination σ).2
    = DefaultTransport σ.
Proof.
  unfold setupDefaultEmitter.
  destruct (decide (origin = "")); [done|].
  destruct (decide (destination = "")); [done|].
  by destruct (NewUdpEmitter σ destination).
Qed.

(** X7. An empty origin or an empty destination is turned down before
    anything is done: the world is untouched and no UDP emitter is asked
    for; the origin is looked at first. Otherwise the emitter is asked for
    once, for the destination given. *)
Theorem setupDefaultEmitter_validates_first t origin destination σ :
  (origin = "" →
     setupDefaultEmitter NewUdpEmitter t origin destination σ
     = (Some "Cannot initialize metrics with an empty origin", σ))
  ∧ (origin ≠ "" → destination = "" →
     setupDefaultEmitter NewUdpEmitter t origin destination σ
     = (Some "Cannot initialize metrics with an empty destination", σ))
  ∧ trace (setupDefaultEmitter NewUdpEmitter t origin destination σ).2
    = trace σ ++ (if decide (origin = "" ∨ destination = "") then []
                  else [CallNewUdpEmitter destination]).
Proof.
  unfold setupDefaultEmitter. repeat split.
  - intros ->. done.
  - intros Ho ->. by destruct (decide (origin = "")).
  - destruct (decide (origin = "")) as [->|Ho].
    { rewrite decide_True by auto. cbn. by rewrite app_nil_r. }
    destruct (decide (destination = "")) as [->|Hd].
    { rewrite decide_True by auto. cbn. by rewrite app_nil_r. }
    rewrite decide_False by (intros [?|?]; done).
    by destruct (NewUdpEmitter σ destination).
Qed.

(** X8. [initializeMetrics] returns the error of [setupDefaultEmitter],
    and whatever [DefaultEmitter] was before, after the call it is the
    null emitter when an error is returned, and the event emitter for the
    given origin otherwise. *)
Theorem initializeMetrics_falls_back t origin destination σ :
  let '(batcher, err, σ') :=
    initializeMetrics NewUdpEmitter t origin destination σ in
  err = (setupDefaultEmitter NewUdpEmitter t origin destination σ).1
  ∧ (err ≠ None → DefaultEmitter σ' = NullEventEmitter)
  ∧ (err = None →
     ∃ udpEmitter, NewUdpEmitter σ destination = inl udpEmitter
                   ∧ DefaultEmitter σ' = NewEventEmitter udpEmitter origin).
Proof.
  unfold initializeMetrics, setupDefaultEmitter.
  destruct (decide (origin = "")); [by repeat split|].
  destruct (decide (destination = "")); [by repeat split|].
  destruct (NewUdpEmitter σ destination) as [udpEmitter|msg]; cbn.
  - repeat split; [done|]. intros _. by exists udpEmitter.
  - by repeat split.
Qed.

(** X9. Whatever [setupDefaultEmitter] did, [initializeMetrics] initialises
    everything, and on one emitter: the batcher it returns, the metric
    sender, the log sender, the envelope sender and the runtime statistics
    are all built on the [DefaultEmitter] it leaves, in this order; the
    batcher flushes every second and the statistics run every ten. *)
Theorem initializeMetrics_wires_one_emitter t origin destination σ :
  let '(batcher, err, σ') :=
    initializeMetrics NewUdpEmitter t origin destination σ in
  let e := DefaultEmitter σ' in
  batcher = metricbatcher_New (NewMetricSender e) Second
  ∧ trace σ'
    = trace (setupDefaultEmitter NewUdpEmitter t origin destination σ).2
      ++ [MetricsInitialize (NewMetricSender e) batcher;
          LogsInitialize (NewLogSender e);
          EnvelopesInitialize (NewEnvelopeSender e);
          Go (RuntimeStatsRun (NewRuntimeStats e (10 * Second)%Z))].
Proof.
  unfold initializeMetrics.
  destruct (setupDefaultEmitter NewUdpEmitter t origin destination σ)
    as [[msg|] σ1]; cbn; by rewrite <- !app_assoc.
Qed.

(** One call adds one layer. *)
Lemma initializeMetrics_transport t origin destination σ :
  DefaultTransport (initializeMetrics NewUdpEmitter t origin destination σ).2
  = InstrumentedRoundTripper (DefaultTransport σ).
Proof.
  unfold initializeMetrics, setupDefaultEmitter.
  destruct (decide (origin = "")); [done|].
  destruct (decide (destination = "")); [done|].
  by destruct (NewUdpEmitter σ destination).
Qed.

(** X10. Every call of [initializeMetrics] wraps [http.DefaultTransport] once
    more, whether it fails or not: after [n] calls the transport carries
    [n] layers of instrumentation over the one it started from. *)
Theorem initializeMetrics_wraps_transport t origin destination σ n :
  DefaultTransport
    (Nat.iter n (fun σ => (initializeMetrics NewUdpEmitter t origin destination σ).2) σ)
  = Nat.iter n InstrumentedRoundTripper (DefaultTransport σ).
Proof.
  induction n as [|n IH]; [done|].
  rewrite !Nat.iter_succ. etrans; [apply initializeMetrics_transport|].
  by rewrite IH.
Qed.

(** ** [Start] *)

Context {Listener : Type} (Addr : Listener → string).

Local Abbreviation Process' :=
  (Process UdpEmitter PriorEmitter Transport HttpClient MetricClient Creds File Listener).
Local Abbreviation Event' :=
  (Event UdpEmitter PriorEmitter HttpClient MetricClient Creds File).
Local Abbreviation launch' :=
  (launch (Listener:=Listener) NewUdpEmitter NewClientCredentials OpenFile).
Local Abbreviation Start' := (Start NewUdpEmitter NewClientCredentials OpenFile Addr).

Implicit Types (cfg L : Process').

(** Running through [setupDefaultEmitter] by cases. *)
Ltac setup_cases origin destination σ :=
  unfold initializeMetrics, setupDefaultEmitter;
  destruct (decide (origin = ""));
  [| destruct (decide (destination = ""));
     [| destruct (NewUdpEmitter σ destination) ] ].

(** What [initializeMetrics] leaves in the trace: it starts the runtime
    statistics, and nothing else that the projections see. *)
Lemma initializeMetrics_quiet t origin destination σ :
  let σ' := (initializeMetrics NewUdpEmitter t origin destination σ).2 in
  logged (trace σ') = logged (trace σ)
  ∧ opened_files (trace σ') = opened_files (trace σ)
  ∧ health_servers (trace σ') = health_servers (trace σ)
  ∧ synced (trace σ') = synced (trace σ)
  ∧ closed (trace σ') = closed (trace σ)
  ∧ started (trace σ')
    = started (trace σ)
      ++ [RuntimeStatsRun (NewRuntimeStats (DefaultEmitter σ') (10 * Second)%Z)].
Proof.
  setup_cases origin destination σ; cbn;
    unfold logged, opened_files, health_servers, synced, closed, started;
    rewrite !omap_app; cbn; by rewrite ?app_nil_r.
Qed.

(** Running through [launch] by cases: the credentials, the security
    event log, the file. *)
Ltac launch_cases t :=
  unfold launch;
  destruct (initializeMetrics NewUdpEmitter t "LoggregatorTrafficController"
              (UDPAddress (Agent (conf t))) _) as [[?batcher ?err] ?σ2];
  match goal with
  | |- context [NewClientCredentials ?w ?a ?b ?c ?d] =>
      destruct (NewClientCredentials w a b c d) as [?creds|?msg] eqn:?Hcreds
  end;
  [ destruct (decide (SecurityEventLog (conf t) ≠ "")) as [?Hlog|?Hlog];
    [ match goal with
      | |- context [OpenFile ?w ?a] =>
          destruct (OpenFile w a) as [?file|?msg] eqn:?Hopen
      end
    | ]
  | ].

Lemma launch_fresh t σ :
  main_events t (main (launch' t σ)) = ([] : list Event')
  ∧ serving (launch' t σ) = serve_events Addr (serve (launch' t σ)).
Proof. launch_cases t; done. Qed.

Lemma tracks_launch t σ : tracks Addr t (launch' t σ) (launch' t σ).
Proof.
  destruct (launch_fresh t σ) as [Hm Hs].
  unfold tracks. rewrite Hm, app_nil_r. by repeat split.
Qed.

Lemma tracks_step t L cfg cfg' :
  tracks Addr t L cfg → step Addr t cfg cfg' → tracks Addr t L cfg'.
Proof.
  intros (He & Ht & Htr & Hsv & Ha & Hh) Hstep.
  destruct Hstep as [cfg pc' σ' _ Hmain | cfg pc' g' _ Hserve]; unfold tracks; cbn.
  - destruct (main cfg) as [| |a|a|a|[f|]|f|f|a]; cbn in Hmain; simplify_eq; cbn;
      rewrite ?Htr, <- ?app_assoc; done.
  - destruct cfg as [m sv σ0 g]. cbn in *. subst g.
    inversion Hserve; subst; cbn in *; by repeat split.
Qed.

Lemma Start_tracks t σ cfg : Start' t σ cfg → tracks Addr t (launch' t σ) cfg.
Proof.
  unfold Start. revert cfg. apply rtc_ind_r; [apply tracks_launch|].
  intros cfg cfg' _ Hstep IH. by eapply tracks_step.
Qed.

(** Once the process has ended nothing moves. *)
Lemma step_alive t cfg cfg' : step Addr t cfg cfg' → alive cfg = true.
Proof. by destruct 1. Qed.

Lemma ended_stays t cfg cfg' :
  alive cfg = false → rtc (step Addr t) cfg cfg' → cfg' = cfg.
Proof.
  intros Hdead Hrun. destruct Hrun as [|cfg cfg1 cfg' Hstep _]; [done|].
  apply step_alive in Hstep. congruence.
Qed.

(** The goroutine that runs [Start] opens no file, starts no health
    server and asks for no UDP emitter after the [go] statement. *)
Lemma main_events_quiet t (pc : MainPc File) :
  opened_files (main_events t pc : list Event') = []
  ∧ health_servers (main_events t pc : list Event') = []
  ∧ dialled (main_events t pc : list Event') = [].
Proof. by destruct pc as [| |a|a|a|a|f|f|[f|]]. Qed.

(** What the func literal listens on and serves, by where it stands. *)
Lemma serve_events_served (pc : ServePc UdpEmitter PriorEmitter HttpClient MetricClient Creds File Listener) lis h :
  (lis, h) ∈ served (serve_events Addr pc) →
  ∃ addr, handler_of pc = Some (addr, h)
          ∧ ServeLog ("ws bound to: " +:+ Addr lis) ∈ serve_events Addr pc
          ∧ CallListen "tcp" addr ∈ serve_events Addr pc.
Proof.
  destruct pc; cbn; intros Hin; try by apply elem_of_nil in Hin.
  all: apply list_elem_of_singleton in Hin; simplify_eq;
    eexists; split; [reflexivity|]; set_solver.
Qed.



(** Running through [launch] with what [initializeMetrics] leaves in
    the trace at hand. *)
Ltac launch_from t σ :=
  unfold launch;
  let Hq := fresh "Hq" in
  pose proof (initializeMetrics_quiet t "LoggregatorTrafficController"
                (UDPAddress (Agent (conf t)))
                (emit (Log "Startup: Setting up the loggregator traffic controller") σ))
    as Hq;
  destruct (initializeMetrics NewUdpEmitter t "LoggregatorTrafficController"
              (UDPAddress (Agent (conf t))) _) as [[?batcher ?err] ?σ2];
  cbn [snd emit trace] in Hq;
  destruct Hq as (?Hlogged & ?Hopened & ?Hhealth & ?Hsynced & ?Hclosed & ?Hstarted).

Ltac project :=
  unfold logged, opened_files, health_servers, synced, closed, started, dialled in *;
  cbn [emit trace main serve world serving];
  rewrite ?omap_app in *; cbn [omap list_omap] in *; rewrite ?app_nil_r in *.


(** [launch] when the security event log cannot be opened. *)
Lemma launch_without_access_log t σ creds msg :
  SecurityEventLog (conf t) ≠ "" →
  (∀ σ', NewClientCredentials σ' (CertFile (GRPC (conf t))) (KeyFile (GRPC (conf t)))
           (CAFile (GRPC (conf t))) "doppler" = inl creds) →
  (∀ σ', OpenFile σ' (SecurityEventLog (conf t)) = inr msg) →
  let L := launch' t σ in
  main L = MainPanicked ∧ serve L = NotStarted ∧ serving L = []
  ∧ (∃ tr, trace (world L)
           = tr ++ [CallOpenFile (SecurityEventLog (conf t)) [O_APPEND; O_WRONLY] ModeAppend;
                    Log ("Unable to open access log: " +:+ msg)])
  ∧ health_servers (trace (world L))
    = health_servers (trace σ) ++ [HealthAddr (conf t)]
  ∧ opened_files (trace (world L))
    = opened_files (trace σ) ++ [SecurityEventLog (conf t)]
  ∧ ∃ r, started (trace (world L)) = started (trace σ) ++ [RuntimeStatsRun r].
Proof.
  intros Hlog Hcreds Hopen. launch_from t σ.
  rewrite Hcreds, decide_True by done. rewrite Hopen.
  destruct err; project; rewrite ?Hopened, ?Hhealth, ?Hstarted;
    repeat split; eauto; eexists; by rewrite <- app_assoc.
Qed.


(** [launch] when the credentials are loaded and the security event log
    is opened. *)
Lemma launch_access t σ creds file :
  SecurityEventLog (conf t) ≠ "" →
  (∀ σ', NewClientCredentials σ' (CertFile (GRPC (conf t))) (KeyFile (GRPC (conf t)))
           (CAFile (GRPC (conf t))) "doppler" = inl creds) →
  (∀ σ', OpenFile σ' (SecurityEventLog (conf t)) = inl file) →
  let L := launch' t σ in
  main L = AtProfiler (Some file) ∧ serving L = []
  ∧ opened_files (trace (world L))
    = opened_files (trace σ) ++ [SecurityEventLog (conf t)]
  ∧ synced (trace (world L)) = synced (trace σ)
  ∧ closed (trace (world L)) = closed (trace σ)
  ∧ ∃ logAuthorizer adminAuthorizer connector health,
      serve L
      = AtListen (":" +:+ pretty (OutgoingDropsondePort (conf t)))
          (Access (NewAccessLogger file) (IP (conf t)) (OutgoingDropsondePort (conf t))
             (NewDopplerProxy logAuthorizer adminAuthorizer connector
                ("doppler." +:+ SystemDomain (conf t)) (5 * Second)%Z (5 * Second)%Z
                (metricClient t) health)).
Proof.
  intros Hlog Hcreds Hopen. launch_from t σ.
  rewrite Hcreds, decide_True by done. rewrite Hopen.
  destruct err; project; rewrite ?Hopened, ?Hsynced, ?Hclosed; repeat split; eauto 10.
Qed.


(** X15. When the credentials are loaded and a security event log is
    configured but cannot be opened, the goroutine panics in [log.Panicf]
    and goes no further: the last things it did were to call [os.OpenFile]
    on the configured path, for appending, and to log the reason; the
    health endpoint is up by then, the func literal is not started and
    nothing is listened on or served. *)
Theorem Start_panics_without_access_log t σ creds msg cfg :
  SecurityEventLog (conf t) ≠ "" →
  (∀ σ', NewClientCredentials σ' (CertFile (GRPC (conf t))) (KeyFile (GRPC (conf t)))
           (CAFile (GRPC (conf t))) "doppler" = inl creds) →
  (∀ σ', OpenFile σ' (SecurityEventLog (conf t)) = inr msg) →
  Start' t σ cfg →
  main cfg = MainPanicked ∧ serve cfg = NotStarted ∧ serving cfg = []
  ∧ (∃ tr, trace (world cfg)
           = tr ++ [CallOpenFile (SecurityEventLog (conf t)) [O_APPEND; O_WRONLY] ModeAppend;
                    Log ("Unable to open access log: " +:+ msg)])
  ∧ health_servers (trace (world cfg))
    = health_servers (trace σ) ++ [HealthAddr (conf t)]
  ∧ opened_files (trace (world cfg))
    = opened_files (trace σ) ++ [SecurityEventLog (conf t)]
  ∧ ∃ r, started (trace (world cfg)) = started (trace σ) ++ [RuntimeStatsRun r].
Proof.
  intros Hlog Hcreds Hopen Hrun.
  pose proof (launch_without_access_log t σ creds msg Hlog Hcreds Hopen) as HL.
  cbn zeta in HL.
  assert (cfg = launch' t σ) as ->; [|done].
  eapply ended_stays; [|exact Hrun].
  destruct HL as (Hm & _). unfold alive. by rewrite Hm.
Qed.


(** Once a signal is delivered the goroutine that runs [Start] can run
    to its end, whatever the other goroutine does. *)
Lemma main_reaches t cfg file :
  alive cfg = true → main cfg = AtProfiler (Some file) →
  ∃ w, rtc (step Addr t) cfg
         {| main := MainReturned (Some file); serve := serve cfg; world := w;
            serving := serving cfg |}.
Proof.
  destruct cfg as [m sv w g]. cbn. intros Halive ->.
  assert (∀ (m' : MainPc File) (w' : World'),
            match m' with MainExited | MainPanicked => False | _ => True end →
            alive (mkProcess m' sv w' g) = true) as Hm.
  { intros m' w' Hm'. unfold alive in *. cbn in *. by destruct m', sv. }
  eexists. eapply rtc_l.
  { by eapply (step_main Addr t (mkProcess (AtProfiler (Some file)) sv w g)). }
  eapply rtc_l.
  { eapply (step_main Addr t (mkProcess (AtNotify (Some file)) sv _ g)); [by apply Hm|done]. }
  eapply rtc_l.
  { eapply (step_main Addr t (mkProcess (AtWait (Some file)) sv _ g)); [by apply Hm|done]. }
  eapply rtc_l.
  { eapply (step_main Addr t (mkProcess (AtShutdown (Some file)) sv _ g)); [by apply Hm|done]. }
  eapply rtc_l.
  { eapply (step_main Addr t (mkProcess (AtSync file) sv _ g)); [by apply Hm|done]. }
  eapply rtc_l.
  { eapply (step_main Addr t (mkProcess (AtClose file) sv _ g)); [by apply Hm|done]. }
  apply rtc_refl.
Qed.




(** X16. When the credentials are loaded and the security event log is
    opened, the file is synced and closed by the deferred function only:
    up to and while the goroutine waits for the signal, and when it logs
    that it shuts down, nothing has been synced or closed; the file is
    then synced, once, and then closed, once, so that when [Start] has
    returned the last three things it did are the log line, the sync and
    the close. Such a run exists; but once the process has ended, by a
    [log.Fatal] of the func literal, nothing more is synced or closed. *)
Theorem Start_closes_access_log_on_return t σ creds file cfg :
  SecurityEventLog (conf t) ≠ "" →
  (∀ σ', NewClientCredentials σ' (CertFile (GRPC (conf t))) (KeyFile (GRPC (conf t)))
           (CAFile (GRPC (conf t))) "doppler" = inl creds) →
  (∀ σ', OpenFile σ' (SecurityEventLog (conf t)) = inl file) →
  Start' t σ cfg →
  match main cfg with
  | MainExited | MainPanicked => False
  | AtProfiler a | AtNotify a | AtWait a | AtShutdown a =>
      a = Some file
      ∧ synced (trace (world cfg)) = synced (trace σ)
      ∧ closed (trace (world cfg)) = closed (trace σ)
  | AtSync f =>
      f = file
      ∧ last (trace (world cfg)) = Some (Log "Shutting down")
      ∧ synced (trace (world cfg)) = synced (trace σ)
      ∧ closed (trace (world cfg)) = closed (trace σ)
  | AtClose f =>
      f = file
      ∧ (∃ tr, trace (world cfg) = tr ++ [Log "Shutting down"; Sync file])
      ∧ synced (trace (world cfg)) = synced (trace σ) ++ [file]
      ∧ closed (trace (world cfg)) = closed (trace σ)
  | MainReturned a =>
      a = Some file
      ∧ (∃ tr, trace (world cfg) = tr ++ [Log "Shutting down"; Sync file; Close file])
      ∧ synced (trace (world cfg)) = synced (trace σ) ++ [file]
      ∧ closed (trace (world cfg)) = closed (trace σ) ++ [file]
  end
  ∧ (alive cfg = false →
     ∀ cfg', rtc (step Addr t) cfg cfg' →
             synced (trace (world cfg')) = synced (trace (world cfg))
             ∧ closed (trace (world cfg')) = closed (trace (world cfg)))
  ∧ (∃ cfg', Start' t σ cfg' ∧ main cfg' = MainReturned (Some file)).
Proof.
  intros Hlog Hcreds Hopen Hrun.
  pose proof (launch_access t σ creds file Hlog Hcreds Hopen) as HL. cbn zeta in HL.
  destruct HL as (Hm & Hg & _ & Hsynced & Hclosed & la & aa & gc & hr & Hs).
  destruct (Start_tracks _ _ _ Hrun) as (_ & _ & Htr & _ & Ha & _).
  rewrite Hm in Ha. cbn in Ha. split; [|split].
  - rewrite Htr. unfold synced, closed in *. rewrite !omap_app, Hsynced, Hclosed.
    destruct (main cfg) as [| |a|a|a|a|f|f|a]; cbn in Ha; simplify_eq; cbn;
      rewrite ?app_nil_r; repeat split; try done.
    + by rewrite last_app.
    + by exists (trace (world (launch' t σ)) ++ [Go (ProfilerStart (profiler_New (PProfPort (conf t)))); SignalNotify]); rewrite <- app_assoc.
    + by exists (trace (world (launch' t σ)) ++ [Go (ProfilerStart (profiler_New (PProfPort (conf t)))); SignalNotify]); rewrite <- app_assoc.
  - intros Hdead cfg' Hrun'. by rewrite (ended_stays t cfg cfg' Hdead Hrun').
  - destruct (main_reaches t (launch' t σ) file) as [w Hw]; [|done|].
    + unfold alive. by rewrite Hm, Hs.
    + eexists. split; [exact Hw|done].
Qed.

(** [launch] when no agent address is configured. *)
Lemma launch_without_metrics t σ :
  UDPAddress (Agent (conf t)) = "" →
  let L := launch' t σ in
  DefaultEmitter (world L) = NullEventEmitter
  ∧ "Error initializing dropsonde: Cannot initialize metrics with an empty destination"
    ∈ logged (trace (world L))
  ∧ dialled (trace (world L)) = dialled (trace σ)
  ∧ CallNewClientCredentials (CertFile (GRPC (conf t))) (KeyFile (GRPC (conf t)))
      (CAFile (GRPC (conf t))) "doppler" ∈ trace (world L)
  ∧ ∀ addr h, handler_of (serve L) = Some (addr, h) →
              handler_batcher h = metricbatcher_New (NewMetricSender NullEventEmitter) Second.
Proof.
  intros Hudp. unfold launch, initializeMetrics, setupDefaultEmitter. rewrite Hudp.
  destruct (decide ("LoggregatorTrafficController" = "")) as [?|_]; [done|].
  destruct (decide ("" = "")) as [_|?]; [|done].
  cbn [fst snd emit trace DefaultEmitter DefaultTransport].
  match goal with
  | |- context [NewClientCredentials ?w ?a ?b ?c ?d] =>
      destruct (NewClientCredentials w a b c d) as [creds|msg]
  end;
  [ destruct (decide (SecurityEventLog (conf t) ≠ "")) as [Hlog|Hlog];
    [ match goal with
      | |- context [OpenFile ?w ?a] => destruct (OpenFile w a) as [file|msg]
      end
    | ]
  | ].
  all: project; repeat split; try done; try (intros ?? [= <- <-]; done).
  all: set_solver.
Qed.

(** X17. When no agent address is configured the metrics cannot be set
    up, and [Start] goes on all the same: it logs the error, asks for no
    UDP emitter, goes on to load the credentials, and from then on
    [DefaultEmitter] is the null emitter, on which the batcher of any
    handler it comes to serve is built. *)
Theorem Start_survives_metrics_failure t σ cfg :
  UDPAddress (Agent (conf t)) = "" →
  Start' t σ cfg →
  DefaultEmitter (world cfg) = NullEventEmitter
  ∧ "Error initializing dropsonde: Cannot initialize metrics with an empty destination"
    ∈ logged (trace (world cfg))
  ∧ dialled (trace (world cfg)) = dialled (trace σ)
  ∧ CallNewClientCredentials (CertFile (GRPC (conf t))) (KeyFile (GRPC (conf t)))
      (CAFile (GRPC (conf t))) "doppler" ∈ trace (world cfg)
  ∧ ∀ lis h, (lis, h) ∈ served (serving cfg) →
             handler_batcher h = metricbatcher_New (NewMetricSender NullEventEmitter) Second.
Proof.
  intros Hudp Hrun.
  pose proof (launch_without_metrics t σ Hudp) as HL. cbn zeta in HL.
  destruct HL as (Hnull & Hline & Hdialled & Hcall & Hbatcher).
  destruct (Start_tracks _ _ _ Hrun) as (He & _ & Htr & Hsv & _ & Hh).
  rewrite Htr. repeat split.
  - congruence.
  - unfold logged in *. rewrite omap_app. set_solver.
  - destruct (main_events_quiet t (main cfg)) as (_ & _ & Hq).
    unfold dialled in *. by rewrite omap_app, Hq, app_nil_r.
  - set_solver.
  - intros lis h Hin. rewrite Hsv in Hin.
    apply serve_events_served in Hin as (addr & Hin & _).
    rewrite Hh in Hin. by eapply Hbatcher.
Qed.



End TrafficController.

(** ** Instances *)

Lemma setupDefaultEmitter_failure_keeps_globals_witness :
  DefaultEmitter
    (setupDefaultEmitter udpDown (sampleController "10.0.0.2:3457" "")
       "LoggregatorTrafficController" "10.0.0.2:3457" sampleWorld).2
  = Prior tt.
Proof.
  apply (setupDefaultEmitter_failure_keeps_globals udpDown
           (sampleController "10.0.0.2:3457" "")
           "LoggregatorTrafficController" "10.0.0.2:3457" sampleWorld).
  discriminate.
Defined.





Lemma Start_panics_without_access_log_witness :
  let cfg :=
    launch (Listener:=unit) udpUp credsUp fileDown
      (sampleController "10.0.0.2:3457" "/var/log/access.log") sampleWorld in
  main cfg = MainPanicked
  ∧ opened_files (trace (world cfg)) = ["/var/log/access.log"].
Proof.
  cbv zeta.
  destruct (Start_panics_without_access_log udpUp credsUp fileDown (fun _ : unit => "[::]:8081")
              (sampleController "10.0.0.2:3457" "/var/log/access.log") sampleWorld
              tt "permission denied" _ ltac:(done) (fun _ => eq_refl) (fun _ => eq_refl)
              (rtc_refl _ _))
    as (Hm & _ & _ & _ & _ & Hopened & _).
  by split.
Defined.

Lemma Start_closes_access_log_on_return_witness :
  let cfg :=
    launch (Listener:=unit) udpUp credsUp fileUp
      (sampleController "10.0.0.2:3457" "/var/log/access.log") sampleWorld in
  synced (trace (world cfg)) = [] ∧ closed (trace (world cfg)) = [].
Proof.
  cbv zeta.
  destruct (Start_closes_access_log_on_return udpUp credsUp fileUp (fun _ : unit => "[::]:8081")
              (sampleController "10.0.0.2:3457" "/var/log/access.log") sampleWorld
              tt tt _ ltac:(done) (fun _ => eq_refl) (fun _ => eq_refl) (rtc_refl _ _))
    as (Hmatch & _).
  cbn in Hmatch. tauto.
Defined.

Lemma Start_survives_metrics_failure_witness :
  let cfg :=
    launch (Listener:=unit) udpUp credsUp fileUp
      (sampleController "" "") sampleWorld in
  DefaultEmitter (world cfg) = NullEventEmitter.
Proof.
  cbv zeta.
  by destruct (Start_survives_metrics_failure udpUp credsUp fileUp (fun _ : unit => "[::]:8081")
                 (sampleController "" "") sampleWorld _ eq_refl (rtc_refl _ _))
    as (Hnull & _).
Defined.

End AppFacts.
